(** * CacheSpace: the viewport cache engine of qt-items

    A shallow embedding of [src/cache/space/CacheSpace.{h,cpp}] (namespace
    [Qi]) and of the few Qt value types it computes with.  Member functions
    become computations in a small state-and-failure monad over a [World]
    that holds the members of the [CacheSpace] object, the store of the
    concrete subclass, the heap of shared [CacheItem] objects, the observed
    [Space] and the trace of emitted signals and painter calls. *)

From Stdlib Require Import ZArith Lia.
From stdpp Require Import base decidable option list strings.

(** ** Qt value types

    [int] is a 32-bit two's complement integer; it is carried as a [Z] and
    every arithmetic result is brought back into range by [int_wrap]. *)

Module Qt.
Local Open Scope Z_scope.

Definition int_min : Z := - 2 ^ 31.
Definition int_max : Z := 2 ^ 31 - 1.

Definition int_wrap (z : Z) : Z := (z + 2 ^ 31) mod 2 ^ 32 - 2 ^ 31.

Definition is_int (z : Z) : Prop := int_min <= z <= int_max.

Definition int_add (a b : Z) : Z := int_wrap (a + b).
Definition int_sub (a b : Z) : Z := int_wrap (a - b).

(** [QPoint]: members [xp], [yp]. *)
Record QPoint := mkQPoint { xp : Z; yp : Z }.

(** [operator+(const QPoint&, const QPoint&)], also used for [+=]. *)
Definition QPoint_add (p q : QPoint) : QPoint :=
  mkQPoint (int_add (xp p) (xp q)) (int_add (yp p) (yp q)).

(** [operator-(const QPoint&, const QPoint&)]. *)
Definition QPoint_sub (p q : QPoint) : QPoint :=
  mkQPoint (int_sub (xp p) (xp q)) (int_sub (yp p) (yp q)).

Definition is_QPoint (p : QPoint) : Prop := is_int (xp p) /\ is_int (yp p).

(** [QSize]: members [wd], [ht]. *)
Record QSize := mkQSize { wd : Z; ht : Z }.

Definition QSize_add (s t : QSize) : QSize :=
  mkQSize (int_add (wd s) (wd t)) (int_add (ht s) (ht t)).

Definition QSize_sub (s t : QSize) : QSize :=
  mkQSize (int_sub (wd s) (wd t)) (int_sub (ht s) (ht t)).

Definition is_QSize (s : QSize) : Prop := is_int (wd s) /\ is_int (ht s).

(** [QRect]: the four corner coordinates [x1], [y1], [x2], [y2]; the right
    and bottom edges are inclusive, so the width is [x2 - x1 + 1]. *)
Record QRect := mkQRect { x1 : Z; y1 : Z; x2 : Z; y2 : Z }.

(** [QRect(int left, int top, int width, int height)]. *)
Definition QRect_ltwh (left top width height : Z) : QRect :=
  mkQRect left top (int_sub (int_add left width) 1) (int_sub (int_add top height) 1).

Definition QRect_topLeft (r : QRect) : QPoint := mkQPoint (x1 r) (y1 r).
Definition QRect_width (r : QRect) : Z := int_add (int_sub (x2 r) (x1 r)) 1.
Definition QRect_height (r : QRect) : Z := int_add (int_sub (y2 r) (y1 r)) 1.
Definition QRect_size (r : QRect) : QSize := mkQSize (QRect_width r) (QRect_height r).

(** [QRect::normalized()] as Qt 5 implements it: a rectangle whose right
    (bottom) edge lies more than one step before its left (top) edge has the
    two edges swapped.  The engine receives the function it is built against
    through [QtPlatform] below; this one instantiates it. *)
Definition normalized_qt5 (r : QRect) : QRect :=
  let '(a1, a2) := if x2 r <? int_sub (x1 r) 1 then (x2 r, x1 r) else (x1 r, x2 r) in
  let '(b1, b2) := if y2 r <? int_sub (y1 r) 1 then (y2 r, y1 r) else (y1 r, y2 r) in
  mkQRect a1 b1 a2 b2.

#[export] Instance QPoint_eq_dec : EqDecision QPoint.
Proof. solve_decision. Defined.
#[export] Instance QSize_eq_dec : EqDecision QSize.
Proof. solve_decision. Defined.
#[export] Instance QRect_eq_dec : EqDecision QRect.
Proof. solve_decision. Defined.

End Qt.
Export Qt.

(** ** Identities and handles *)

(** [ItemID]: an opaque key with equality. *)
Abbreviation ItemID := nat (only parsing).
(** The address of a heap-allocated [CacheItem], what a
    [QSharedPointer<CacheItem>] holds. *)
Abbreviation Addr := nat (only parsing).
(** [Space*]: the identity of a [Space] object. *)
Abbreviation SpacePtr := nat (only parsing).
(** [QPainter*] and [const GuiContext&]: opaque to the engine. *)
Abbreviation QPainter := nat (only parsing).
Abbreviation GuiContext := nat (only parsing).
(** The target of the [std::function] stored in [m_drawProxy]. *)
Abbreviation DrawProxy := nat (only parsing).
(** A propagating C++ exception. *)
Abbreviation Exn := nat (only parsing).

(** [ViewApplicationMask] and [ChangeReason] are bit masks. *)
Abbreviation ViewApplicationMask := Z (only parsing).
Abbreviation ChangeReason := Z (only parsing).

(** ** Cache items, views and the factory *)

(** Modelled from the spec: [cache/CacheView.h] is missing.  A [CacheView]
    is a node of a finite tree of views, without cycles. *)
#[local] Unset Elimination Schemes.
Inductive CacheView := ViewNode (view_tag : nat) (view_children : list CacheView).
#[local] Set Elimination Schemes.

Definition view_children (v : CacheView) : list CacheView :=
  match v with ViewNode _ cs => cs end.

(** Modelled from the spec: [cache/CacheItemFactory.h] is missing.  A
    factory is made by the [Space] for one mask; the serial tells one
    factory from the next. *)
Record CacheItemFactory := mkFactory {
  factory_mask : ViewApplicationMask;
  factory_serial : nat
}.

(** Modelled from the spec: [cache/CacheItem.h] is missing.  A [CacheItem]
    carries its identity, its geometry, the lazily built root view, the
    factory whose schema it is wired to and its schema version. *)
Record CacheItem := mkCacheItem {
  item_id : ItemID;
  item_rect : QRect;
  item_cacheView : option CacheView;
  item_schema : nat;
  item_schema_version : nat
}.

(** Modelled from the spec: [CacheItem::invalidateCacheView()] of the
    missing [cache/CacheItem.h].  The view is dropped and will be built again
    by the next draw. *)
Definition CacheItem_invalidateCacheView (it : CacheItem) : CacheItem :=
  mkCacheItem (item_id it) (item_rect it) None (item_schema it) (item_schema_version it).

(** Modelled from the spec: [CacheItemFactory::updateSchema(CacheItem&)] of
    the missing [cache/CacheItemFactory.h].  The item is rewired to the
    schema of this factory; identity and geometry stay, the schema version is
    bumped. *)
Definition CacheItemFactory_updateSchema (f : CacheItemFactory) (it : CacheItem) : CacheItem :=
  mkCacheItem (item_id it) (item_rect it) (item_cacheView it)
              (factory_serial f) (S (item_schema_version it)).

(** ** Observable events: emitted signals and calls on the painter *)

Inductive Event :=
| EvCacheChanged (reason : ChangeReason)
| EvPreDraw
| EvPainterSave (painter : QPainter)
| EvPainterSetClipRect (painter : QPainter) (r : QRect)
| EvPainterRestore (painter : QPainter)
| EvItemValidateCacheView (a : Addr)
| EvItemDraw (a : Addr) (painter : QPainter).

(** ** The world

    The first ten fields are the data members of [CacheSpace] in the order
    of the header.  [cacheItems] is the store of the concrete subclass,
    [heap] holds the shared [CacheItem] objects, [space_factories] counts the
    factories the observed [Space] has made, [trace] is the event log. *)

Record World := mkWorld {
  m_space : SpacePtr;
  m_viewApplicationMask : ViewApplicationMask;
  m_cacheItemsFactory : option CacheItemFactory;
  m_window : QRect;
  m_scrollOffset : QPoint;
  m_scrollDelta : QPoint;
  m_sizeDelta : QSize;
  m_itemsCacheInvalid : bool;
  m_cacheIsInUse : bool;
  m_drawProxy : option DrawProxy;
  cacheItems : list Addr;
  heap : list CacheItem;
  space_factories : nat;
  trace : list Event
}.

(** Assignments to single fields.  [m_space] and [m_viewApplicationMask] are
    written by the constructor only and nothing assigns [m_drawProxy], so
    they have no setter. *)

Definition set_m_cacheItemsFactory (v : option CacheItemFactory) (w : World) : World :=
  {| m_space := m_space w; m_viewApplicationMask := m_viewApplicationMask w;
  m_cacheItemsFactory := v; m_window := m_window w; m_scrollOffset := m_scrollOffset w;
  m_scrollDelta := m_scrollDelta w; m_sizeDelta := m_sizeDelta w; m_itemsCacheInvalid :=
  m_itemsCacheInvalid w; m_cacheIsInUse := m_cacheIsInUse w; m_drawProxy := m_drawProxy w;
  cacheItems := cacheItems w; heap := heap w; space_factories := space_factories w; trace :=
  trace w |}.

Definition set_m_window (v : QRect) (w : World) : World :=
  {| m_space := m_space w; m_viewApplicationMask := m_viewApplicationMask w;
  m_cacheItemsFactory := m_cacheItemsFactory w; m_window := v; m_scrollOffset :=
  m_scrollOffset w; m_scrollDelta := m_scrollDelta w; m_sizeDelta := m_sizeDelta w;
  m_itemsCacheInvalid := m_itemsCacheInvalid w; m_cacheIsInUse := m_cacheIsInUse w;
  m_drawProxy := m_drawProxy w; cacheItems := cacheItems w; heap := heap w; space_factories :=
  space_factories w; trace := trace w |}.

Definition set_m_scrollOffset (v : QPoint) (w : World) : World :=
  {| m_space := m_space w; m_viewApplicationMask := m_viewApplicationMask w;
  m_cacheItemsFactory := m_cacheItemsFactory w; m_window := m_window w; m_scrollOffset := v;
  m_scrollDelta := m_scrollDelta w; m_sizeDelta := m_sizeDelta w; m_itemsCacheInvalid :=
  m_itemsCacheInvalid w; m_cacheIsInUse := m_cacheIsInUse w; m_drawProxy := m_drawProxy w;
  cacheItems := cacheItems w; heap := heap w; space_factories := space_factories w; trace :=
  trace w |}.

Definition set_m_scrollDelta (v : QPoint) (w : World) : World :=
  {| m_space := m_space w; m_viewApplicationMask := m_viewApplicationMask w;
  m_cacheItemsFactory := m_cacheItemsFactory w; m_window := m_window w; m_scrollOffset :=
  m_scrollOffset w; m_scrollDelta := v; m_sizeDelta := m_sizeDelta w; m_itemsCacheInvalid :=
  m_itemsCacheInvalid w; m_cacheIsInUse := m_cacheIsInUse w; m_drawProxy := m_drawProxy w;
  cacheItems := cacheItems w; heap := heap w; space_factories := space_factories w; trace :=
  trace w |}.

Definition set_m_sizeDelta (v : QSize) (w : World) : World :=
  {| m_space := m_space w; m_viewApplicationMask := m_viewApplicationMask w;
  m_cacheItemsFactory := m_cacheItemsFactory w; m_window := m_window w; m_scrollOffset :=
  m_scrollOffset w; m_scrollDelta := m_scrollDelta w; m_sizeDelta := v; m_itemsCacheInvalid :=
  m_itemsCacheInvalid w; m_cacheIsInUse := m_cacheIsInUse w; m_drawProxy := m_drawProxy w;
  cacheItems := cacheItems w; heap := heap w; space_factories := space_factories w; trace :=
  trace w |}.

Definition set_m_itemsCacheInvalid (v : bool) (w : World) : World :=
  {| m_space := m_space w; m_viewApplicationMask := m_viewApplicationMask w;
  m_cacheItemsFactory := m_cacheItemsFactory w; m_window := m_window w; m_scrollOffset :=
  m_scrollOffset w; m_scrollDelta := m_scrollDelta w; m_sizeDelta := m_sizeDelta w;
  m_itemsCacheInvalid := v; m_cacheIsInUse := m_cacheIsInUse w; m_drawProxy := m_drawProxy w;
  cacheItems := cacheItems w; heap := heap w; space_factories := space_factories w; trace :=
  trace w |}.

Definition set_m_cacheIsInUse (v : bool) (w : World) : World :=
  {| m_space := m_space w; m_viewApplicationMask := m_viewApplicationMask w;
  m_cacheItemsFactory := m_cacheItemsFactory w; m_window := m_window w; m_scrollOffset :=
  m_scrollOffset w; m_scrollDelta := m_scrollDelta w; m_sizeDelta := m_sizeDelta w;
  m_itemsCacheInvalid := m_itemsCacheInvalid w; m_cacheIsInUse := v; m_drawProxy :=
  m_drawProxy w; cacheItems := cacheItems w; heap := heap w; space_factories :=
  space_factories w; trace := trace w |}.

Definition set_cacheItems (v : list Addr) (w : World) : World :=
  {| m_space := m_space w; m_viewApplicationMask := m_viewApplicationMask w;
  m_cacheItemsFactory := m_cacheItemsFactory w; m_window := m_window w; m_scrollOffset :=
  m_scrollOffset w; m_scrollDelta := m_scrollDelta w; m_sizeDelta := m_sizeDelta w;
  m_itemsCacheInvalid := m_itemsCacheInvalid w; m_cacheIsInUse := m_cacheIsInUse w;
  m_drawProxy := m_drawProxy w; cacheItems := v; heap := heap w; space_factories :=
  space_factories w; trace := trace w |}.

Definition set_heap (v : list CacheItem) (w : World) : World :=
  {| m_space := m_space w; m_viewApplicationMask := m_viewApplicationMask w;
  m_cacheItemsFactory := m_cacheItemsFactory w; m_window := m_window w; m_scrollOffset :=
  m_scrollOffset w; m_scrollDelta := m_scrollDelta w; m_sizeDelta := m_sizeDelta w;
  m_itemsCacheInvalid := m_itemsCacheInvalid w; m_cacheIsInUse := m_cacheIsInUse w;
  m_drawProxy := m_drawProxy w; cacheItems := cacheItems w; heap := v; space_factories :=
  space_factories w; trace := trace w |}.

Definition set_space_factories (v : nat) (w : World) : World :=
  {| m_space := m_space w; m_viewApplicationMask := m_viewApplicationMask w;
  m_cacheItemsFactory := m_cacheItemsFactory w; m_window := m_window w; m_scrollOffset :=
  m_scrollOffset w; m_scrollDelta := m_scrollDelta w; m_sizeDelta := m_sizeDelta w;
  m_itemsCacheInvalid := m_itemsCacheInvalid w; m_cacheIsInUse := m_cacheIsInUse w;
  m_drawProxy := m_drawProxy w; cacheItems := cacheItems w; heap := heap w; space_factories :=
  v; trace := trace w |}.

Definition set_trace (v : list Event) (w : World) : World :=
  {| m_space := m_space w; m_viewApplicationMask := m_viewApplicationMask w;
  m_cacheItemsFactory := m_cacheItemsFactory w; m_window := m_window w; m_scrollOffset :=
  m_scrollOffset w; m_scrollDelta := m_scrollDelta w; m_sizeDelta := m_sizeDelta w;
  m_itemsCacheInvalid := m_itemsCacheInvalid w; m_cacheIsInUse := m_cacheIsInUse w;
  m_drawProxy := m_drawProxy w; cacheItems := cacheItems w; heap := heap w; space_factories :=
  space_factories w; trace := v |}.

(** ** The monad of member functions

    A call returns normally, leaves by a propagating exception, or ends the
    process ([Q_ASSERT] failing in a debug build, a dangling or null
    pointer). *)

Inductive Fatality :=
| AssertFailed (cond : string)
| BadPointer.

Inductive Result (S A : Type) :=
| Ok (a : A) (s : S)
| Raised (e : Exn) (s : S)
| Fatal (f : Fatality) (s : S).
Arguments Ok {S A} a s.
Arguments Raised {S A} e s.
Arguments Fatal {S A} f s.

Definition M (S A : Type) : Type := S -> Result S A.

Definition ret {S A} (a : A) : M S A := fun s => Ok a s.

Definition bind {S A B} (m : M S A) (k : A -> M S B) : M S B :=
  fun s => match m s with
           | Ok a s' => k a s'
           | Raised e s' => Raised e s'
           | Fatal f s' => Fatal f s'
           end.

Notation "x <- m ;; k" := (bind m (fun x => k))
  (at level 100, m at next level, right associativity).
Notation "m ;; k" := (bind m (fun _ => k))
  (at level 100, right associativity).

Definition throw {S A} (e : Exn) : M S A := fun s => Raised e s.

Definition gets {S A} (f : S -> A) : M S A := fun s => Ok (f s) s.
Definition modify {S} (f : S -> S) : M S unit := fun s => Ok tt (f s).

(** The world seen from a state that also holds the locals a closure
    captures by reference. *)
Class HasWorld (S : Type) := {
  get_world : S -> World;
  put_world : World -> S -> S
}.

#[export] Instance HasWorld_World : HasWorld World :=
  {| get_world := fun w => w; put_world := fun w _ => w |}.

#[export] Instance HasWorld_local (L : Type) : HasWorld (L * World) :=
  {| get_world := snd; put_world := fun w s => (fst s, w) |}.

Definition lift_world {S} `{HasWorld S} {A} (m : M World A) : M S A :=
  fun s => match m (get_world s) with
           | Ok a w => Ok a (put_world w s)
           | Raised e w => Raised e (put_world w s)
           | Fatal f w => Fatal f (put_world w s)
           end.

(** A block with a local variable, [L x = init; ...]: the local is gone when
    the block is left. *)
Definition drop_local {L A} (r : Result (L * World) A) : Result World A :=
  match r with
  | Ok a s => Ok a (snd s)
  | Raised e s => Raised e (snd s)
  | Fatal f s => Fatal f (snd s)
  end.

Definition with_local {L A} (init : L) (m : M (L * World) A) : M World A :=
  fun w => drop_local (m (init, w)).

Definition get_local {L} : M (L * World) L := gets fst.
Definition modify_local {L} (f : L -> L) : M (L * World) unit :=
  modify (fun s => (f (fst s), snd s)).

(** [emit signal(...)] and calls on the painter append to the trace. *)
Definition emit (e : Event) : M World unit :=
  modify (fun w => set_trace (trace w ++ [e]) w).

(** Iteration in order with a continue/stop visitor: the loop every
    [forEach...] below runs. *)
Fixpoint forEach {S X} (xs : list X) (visitor : X -> M S bool) : M S bool :=
  match xs with
  | [] => ret true
  | x :: xs' => b <- visitor x ;; if b : bool then forEach xs' visitor else ret false
  end.

(** ** What the engine is built against

    [qt_debug] tells whether [Q_ASSERT] is compiled in (no [QT_NO_DEBUG]);
    [QRect_normalized] is [QRect::normalized()] of the Qt in use. *)
Class QtPlatform := {
  qt_debug : bool;
  QRect_normalized : QRect -> QRect
}.

(** The [ChangeReason] bits; the header that declares them is missing, so
    the engine takes them as given. *)
Class ChangeReasonBits := {
  ChangeReasonSpaceStructure : ChangeReason;
  ChangeReasonSpaceHint : ChangeReason;
  ChangeReasonSpaceItemsStructure : ChangeReason;
  ChangeReasonSpaceItemsContent : ChangeReason;
  ChangeReasonCacheContent : ChangeReason
}.

(** Code the engine calls and does not own: the validation strategy of the
    concrete subclass and the two [CacheItem] operations of the draw pass.
    Each is an arbitrary computation: it may raise and it may call back into
    the engine. *)
Class Collaborators := {
  validateItemsCacheImpl : M World unit;
  CacheItem_validateCacheView : Addr -> GuiContext -> QRect -> M World unit;
  CacheItem_draw : Addr -> QPainter -> GuiContext -> QRect -> M World unit
}.

(** [Q_ASSERT(cond)]: ends the process in a debug build when [cond] is
    false, compiles to nothing otherwise. *)
Definition Q_ASSERT {S} `{QtPlatform} (cond : bool) (text : string) : M S unit :=
  fun s => if cond then Ok tt s
           else if qt_debug then Fatal (AssertFailed text) s
           else Ok tt s.

(** Modelled from the spec: [utils/auto_value.h] is missing.
    [auto_value<T> guard(variable, value)]: the variable takes the value for
    the rest of the scope and gets its old value back when the scope is left,
    also by an exception; a process that ends does not unwind. *)
Definition auto_value {T A} (get : World -> T) (set : T -> World -> World)
    (value : T) (scope : M World A) : M World A :=
  fun w =>
    let old := get w in
    match scope (set value w) with
    | Ok a w' => Ok a (set old w')
    | Raised e w' => Raised e (set old w')
    | Fatal f w' => Fatal f w'
    end.

(** ** The observed Space and the shared cache items *)

(** Modelled from the spec: [space/Space.h] is missing.
    [Space::createCacheItemFactory(mask)]: the Space makes a new factory for
    the mask it is given. *)
Definition Space_createCacheItemFactory (mask : ViewApplicationMask)
    : M World (option CacheItemFactory) :=
  fun w => Ok (Some (mkFactory mask (space_factories w)))
              (set_space_factories (S (space_factories w)) w).

Definition notNull {A} (p : option A) : bool :=
  match p with Some _ => true | None => false end.

(** Access to a [CacheItem] through a [QSharedPointer]. *)
Definition CacheItem_load (a : Addr) : M World CacheItem :=
  fun w => match heap w !! a with
           | Some it => Ok it w
           | None => Fatal BadPointer w
           end.

Definition CacheItem_update (a : Addr) (f : CacheItem -> CacheItem) : M World unit :=
  it <- CacheItem_load a ;;
  modify (fun w => set_heap (<[a := f it]> (heap w)) w).

(** Modelled from the spec: [CacheItem::cacheView()] of the missing
    [cache/CacheItem.h], the root view or null. *)
Definition CacheItem_cacheView (a : Addr) : M World (option CacheView) :=
  it <- CacheItem_load a ;; ret (item_cacheView it).

(** Modelled from the spec: [CacheView::forEachCacheView(visitor)] of the
    missing [cache/CacheView.h]: pre-order, children in their stable order,
    returns early on a visitor answering false. *)
Fixpoint CacheView_forEachCacheView {S} (v : CacheView)
    (visitor : CacheView -> M S bool) : M S bool :=
  b <- visitor v ;;
  if b : bool then
    (fix children (cs : list CacheView) : M S bool :=
       match cs with
       | [] => ret true
       | c :: cs' =>
           b' <- CacheView_forEachCacheView c visitor ;;
           if b' : bool then children cs' else ret false
       end) (view_children v)
  else ret false.

(** ** The store of the concrete subclass *)

(** Modelled from the spec: the subclasses of [CacheSpace] are missing.  The
    store is the sequence of shared pointers [cacheItems];
    [clearItemsCacheImpl] discards all of them. *)
Definition clearItemsCacheImpl : M World unit := modify (set_cacheItems []).

(** Modelled from the spec: the subclasses of [CacheSpace] are missing.
    [forEachCacheItemImpl] runs over the stored items in their order, stops
    at the first visitor answering false and tells whether it completed. *)
Definition forEachCacheItemImpl {S} `{HasWorld S} (visitor : Addr -> M S bool) : M S bool :=
  fun s => forEach (cacheItems (get_world s)) visitor s.

(** ** CacheSpace *)

(** [CacheSpace::IterateInfo], with its default constructor. *)
Record IterateInfo := mkIterateInfo {
  cacheItem : option Addr;
  cacheItemIndex : Z;
  cacheView : option CacheView;
  cacheViewIndex : Z
}.

Definition IterateInfo_new : IterateInfo := mkIterateInfo None 0 None 0.

Definition has_bits (reason mask : ChangeReason) : bool := negb (Z.land reason mask =? 0)%Z.

Section CacheSpace.
Context {qt : QtPlatform} {bits : ChangeReasonBits}.

(** [bool forEachCacheItem(visitor) const].  A visitor of the model is
    never an empty [std::function], so [Q_ASSERT(visitor)] holds. *)
Definition forEachCacheItem {S} `{HasWorld S} (visitor : Addr -> M S bool) : M S bool :=
  Q_ASSERT true "visitor" ;;
  forEachCacheItemImpl visitor.

(** [void invalidateItemsCache()]. *)
Definition invalidateItemsCache : M World unit :=
  inUse <- gets m_cacheIsInUse ;;
  Q_ASSERT (negb inUse) "!m_cacheIsInUse" ;;
  modify (set_m_itemsCacheInvalid true) ;;
  emit (EvCacheChanged ChangeReasonCacheContent).

(** [void clearItemsCache() const]. *)
Definition clearItemsCache : M World unit :=
  inUse <- gets m_cacheIsInUse ;;
  Q_ASSERT (negb inUse) "!m_cacheIsInUse" ;;
  clearItemsCacheImpl.

(** [void clear()]. *)
Definition clear : M World unit :=
  clearItemsCache ;;
  invalidateItemsCache.

(** [void updateCacheItemsFactory()]; first the closure it hands to
    [forEachCacheItem]. *)
Definition updateCacheItemsFactory_visitor (cacheItem : Addr) : M World bool :=
  CacheItem_update cacheItem CacheItem_invalidateCacheView ;;
  factory <- gets m_cacheItemsFactory ;;
  match factory with
  | Some f => CacheItem_update cacheItem (CacheItemFactory_updateSchema f)
  | None => fun w => Fatal BadPointer w
  end ;;
  ret true.

Definition updateCacheItemsFactory : M World unit :=
  mask <- gets m_viewApplicationMask ;;
  factory <- Space_createCacheItemFactory mask ;;
  modify (set_m_cacheItemsFactory factory) ;;
  Q_ASSERT (notNull factory) "m_cacheItemsFactory" ;;
  forEachCacheItem updateCacheItemsFactory_visitor ;;
  ret tt.

(** The constructor: the member initialisers, then the factory.  The
    subclass store, the heap and the trace start empty. *)
Definition CacheSpace_init (space : SpacePtr) (viewApplicationMask : ViewApplicationMask)
    : World :=
  {| m_space := space;
     m_viewApplicationMask := viewApplicationMask;
     m_cacheItemsFactory := None;
     m_window := QRect_ltwh 0 0 0 0;
     m_scrollOffset := mkQPoint 0 0;
     m_scrollDelta := mkQPoint 0 0;
     m_sizeDelta := mkQSize 0 0;
     m_itemsCacheInvalid := true;
     m_cacheIsInUse := false;
     m_drawProxy := None;
     cacheItems := [];
     heap := [];
     space_factories := 0;
     trace := [] |}.

Definition CacheSpace_new (space : SpacePtr) (viewApplicationMask : ViewApplicationMask)
    : Result World unit :=
  (factory <- Space_createCacheItemFactory viewApplicationMask ;;
   modify (set_m_cacheItemsFactory factory) ;;
   Q_ASSERT (notNull factory) "m_cacheItemsFactory")
  (CacheSpace_init space viewApplicationMask).

(** [void onSpaceChanged(const Space* space, ChangeReason reason)]. *)
Definition onSpaceChanged (space : SpacePtr) (reason : ChangeReason) : M World unit :=
  this_space <- gets m_space ;;
  Q_ASSERT (Nat.eqb space this_space) "space == m_space.data()" ;;
  if has_bits reason ChangeReasonSpaceStructure then
    clear
  else if has_bits reason (Z.lor ChangeReasonSpaceHint ChangeReasonSpaceItemsStructure) then
    updateCacheItemsFactory ;;
    emit (EvCacheChanged (Z.lor reason ChangeReasonCacheContent))
  else if has_bits reason ChangeReasonSpaceItemsContent then
    emit (EvCacheChanged (Z.lor reason ChangeReasonCacheContent))
  else ret tt.

(** [ViewApplicationMask viewApplicationMask() const]. *)
Definition viewApplicationMask (w : World) : ViewApplicationMask := m_viewApplicationMask w.

(** [void setViewApplicationMask(ViewApplicationMask viewApplicationMask)]. *)
Definition setViewApplicationMask (viewApplicationMask : ViewApplicationMask) : M World unit :=
  current <- gets m_viewApplicationMask ;;
  if negb (current =? viewApplicationMask)%Z then
    updateCacheItemsFactory ;;
    emit (EvCacheChanged ChangeReasonCacheContent)
  else ret tt.

(** [void setWindow(const QRect& window)]. *)
Definition setWindow (window : QRect) : M World unit :=
  current <- gets m_window ;;
  if bool_decide (current = window) then ret tt
  else
    let _window := QRect_normalized window in
    modify (fun w =>
      let delta := QPoint_sub (QRect_topLeft _window) (QRect_topLeft (m_window w)) in
      set_m_scrollDelta (QPoint_add (m_scrollDelta w) delta) w) ;;
    modify (fun w =>
      set_m_sizeDelta
        (QSize_add (m_sizeDelta w) (QSize_sub (QRect_size _window) (QRect_size (m_window w)))) w) ;;
    modify (set_m_window _window) ;;
    invalidateItemsCache.

(** [void setScrollOffset(const QPoint& scrollOffset)]. *)
Definition setScrollOffset (scrollOffset : QPoint) : M World unit :=
  current <- gets m_scrollOffset ;;
  if bool_decide (current = scrollOffset) then ret tt
  else
    modify (fun w =>
      let offset := QPoint_sub (m_scrollOffset w) scrollOffset in
      set_m_scrollDelta (QPoint_add (m_scrollDelta w) offset) w) ;;
    modify (set_m_scrollOffset scrollOffset) ;;
    invalidateItemsCache.

(** [void set(const QRect& window, const QPoint& scrollOffset)]. *)
Definition set (window : QRect) (scrollOffset : QPoint) : M World unit :=
  setWindow window ;;
  setScrollOffset scrollOffset.

(** [QPoint originPos() const]. *)
Definition originPos (w : World) : QPoint :=
  QPoint_sub (QRect_topLeft (m_window w)) (m_scrollOffset w).

(** [QPoint window2Space(const QPoint& windowPoint) const]. *)
Definition window2Space (w : World) (windowPoint : QPoint) : QPoint :=
  QPoint_add (QPoint_sub windowPoint (QRect_topLeft (m_window w))) (m_scrollOffset w).

(** [QPoint space2Window(const QPoint& spacePoint) const]. *)
Definition space2Window (w : World) (spacePoint : QPoint) : QPoint :=
  QPoint_add (QPoint_sub spacePoint (m_scrollOffset w)) (QRect_topLeft (m_window w)).

(** [bool forEachCacheView(visitor) const].  The local [info] is captured
    by reference by both closures: the inner one runs on every view of an
    item, the outer one on every item. *)
Definition forEachCacheView_view (visitor : IterateInfo -> M World bool)
    (cacheView' : CacheView) : M (IterateInfo * World) bool :=
  modify_local (fun info =>
    mkIterateInfo (cacheItem info) (cacheItemIndex info) (Some cacheView')
                  (cacheViewIndex info)) ;;
  info <- get_local ;;
  result <- lift_world (visitor info) ;;
  modify_local (fun info =>
    mkIterateInfo (cacheItem info) (cacheItemIndex info) (cacheView info)
                  (int_add (cacheViewIndex info) 1)) ;;
  ret result.

Definition forEachCacheView_item (visitor : IterateInfo -> M World bool)
    (cacheItem' : Addr) : M (IterateInfo * World) bool :=
  modify_local (fun info =>
    mkIterateInfo (Some cacheItem') (cacheItemIndex info) (cacheView info)
                  (cacheViewIndex info)) ;;
  modify_local (fun info =>
    mkIterateInfo (cacheItem info) (cacheItemIndex info) (cacheView info) 0) ;;
  rootCacheView <- lift_world (CacheItem_cacheView cacheItem') ;;
  result <-
    match rootCacheView with
    | Some root => CacheView_forEachCacheView root (forEachCacheView_view visitor)
    | None => ret true
    end ;;
  modify_local (fun info =>
    mkIterateInfo (cacheItem info) (int_add (cacheItemIndex info) 1) (cacheView info)
                  (cacheViewIndex info)) ;;
  ret result.

Definition forEachCacheView (visitor : IterateInfo -> M World bool) : M World bool :=
  Q_ASSERT true "visitor" ;;
  with_local IterateInfo_new (forEachCacheItem (forEachCacheView_item visitor)).

(** [bool hasDrawProxy() const]. *)
Definition hasDrawProxy (w : World) : bool := notNull (m_drawProxy w).

Context {ext : Collaborators}.

(** [void validateItemsCache() const]. *)
Definition validateItemsCache : M World unit :=
  invalid <- gets m_itemsCacheInvalid ;;
  if negb invalid then ret tt else validateItemsCacheImpl.

(** [void draw(QPainter* painter, const GuiContext& ctx) const]. *)
Definition draw (painter : QPainter) (ctx : GuiContext) : M World unit :=
  validateItemsCache ;;
  auto_value m_cacheIsInUse set_m_cacheIsInUse true
    (forEachCacheItem (fun cacheItem =>
       window <- gets m_window ;;
       CacheItem_validateCacheView cacheItem ctx window ;;
       ret true) ;;
     emit EvPreDraw ;;
     emit (EvPainterSave painter) ;;
     window <- gets m_window ;;
     emit (EvPainterSetClipRect painter window) ;;
     forEachCacheItem (fun cacheItem =>
       window <- gets m_window ;;
       CacheItem_draw cacheItem painter ctx window ;;
       ret true) ;;
     emit (EvPainterRestore painter)).

End CacheSpace.

(** ** Reading results *)

(** The world a call leaves behind, however it ends. *)
Definition state_of {S A} (r : Result S A) : S :=
  match r with
  | Ok _ s => s
  | Raised _ s => s
  | Fatal _ s => s
  end.

Definition returns {S A} (r : Result S A) : bool :=
  match r with Ok _ _ => true | _ => false end.


(** [Q_ASSERT(!m_cacheIsInUse)] lets the call through. *)
Definition guard_free `{QtPlatform} (w : World) : Prop :=
  qt_debug = false \/ m_cacheIsInUse w = false.

(** Every shared pointer of the store points to a live item. *)
Definition live (h : list CacheItem) (a : Addr) : Prop := is_Some (h !! a).

Definition cache_wf (w : World) : Prop := Forall (live (heap w)) (cacheItems w).

(** Saves not yet matched by a restore, read off the trace. *)
Fixpoint painter_depth (painter : QPainter) (t : list Event) : Z :=
  match t with
  | [] => 0
  | EvPainterSave p :: t' =>
      (if Nat.eqb p painter then 1 else 0) + painter_depth painter t'
  | EvPainterRestore p :: t' =>
      (if Nat.eqb p painter then -1 else 0) + painter_depth painter t'
  | _ :: t' => painter_depth painter t'
  end%Z.

(** Re-schemaing of one item and of the items behind a list of pointers, as
    [updateCacheItemsFactory] leaves the heap. *)
Definition reschema (f : CacheItemFactory) (it : CacheItem) : CacheItem :=
  CacheItemFactory_updateSchema f (CacheItem_invalidateCacheView it).

Fixpoint reschema_heap (f : CacheItemFactory) (items : list Addr) (h : list CacheItem)
    : list CacheItem :=
  match items with
  | [] => h
  | a :: items' => reschema_heap f items' (alter (reschema f) a h)
  end.

(** What re-schemaing leaves of an item: identity and geometry, no view, the
    schema of the factory. *)
Definition reschemaed (f : CacheItemFactory) (it it' : CacheItem) : Prop :=
  item_id it' = item_id it /\
  item_rect it' = item_rect it /\
  item_cacheView it' = None /\
  item_schema it' = factory_serial f.

(** The factory [updateCacheItemsFactory] installs and the world it leaves. *)
Definition rebuilt_factory (w : World) : CacheItemFactory :=
  mkFactory (m_viewApplicationMask w) (space_factories w).

Definition rebuilt (w : World) : World :=
  set_heap (reschema_heap (rebuilt_factory w) (cacheItems w) (heap w))
    (set_m_cacheItemsFactory (Some (rebuilt_factory w))
      (set_space_factories (S (space_factories w)) w)).

(** *** The calls a full [forEachCacheView] traversal owes its visitor

    Stated from the spec: the views of a tree in pre-order; for the item at
    position [i] of the store and the view at position [j] of its tree, one
    call with [cacheItemIndex = i] and [cacheViewIndex = j]; items without a
    view tree owe no call and still count. *)
Fixpoint preorder (v : CacheView) : list CacheView :=
  match v with
  | ViewNode _ cs => v :: (fix go (l : list CacheView) : list CacheView :=
                             match l with
                             | [] => []
                             | c :: l' => preorder c ++ go l'
                             end) cs
  end.

Definition views_of (h : list CacheItem) (a : Addr) : list CacheView :=
  match h !! a with
  | Some it => match item_cacheView it with Some root => preorder root | None => [] end
  | None => []
  end.

Definition item_calls (h : list CacheItem) (i : nat) (a : Addr) : list IterateInfo :=
  imap (fun j v => mkIterateInfo (Some a) (Z.of_nat i) (Some v) (Z.of_nat j)) (views_of h a).

Definition expected_calls (w : World) : list IterateInfo :=
  mjoin (imap (item_calls (heap w)) (cacheItems w)).

(** The counters of a traversal are [int]s: the number of cached items and
    the number of views of each fit. *)
Definition counts_fit (w : World) : Prop :=
  (Z.of_nat (length (cacheItems w)) <= int_max)%Z /\
  Forall (fun a => (Z.of_nat (length (views_of (heap w) a)) <= int_max)%Z) (cacheItems w).

(** *** Collaborators and the painter

    [returns_normally]: the computation never raises nor ends the process.
    [shifts painter d]: where it returns, the painter has [d] more unmatched
    saves than before. *)
Definition returns_normally {A} (m : M World A) : Prop :=
  forall w, returns (m w) = true.

Definition shifts (painter : QPainter) (d : Z) {A} (m : M World A) : Prop :=
  forall w a w', m w = Ok a w' ->
    painter_depth painter (trace w') = (painter_depth painter (trace w) + d)%Z.

Definition keeps_depth_on_return (painter : QPainter) {A} (m : M World A) : Prop :=
  shifts painter 0 m.

Definition collaborators_return `{Collaborators} : Prop :=
  returns_normally validateItemsCacheImpl /\
  (forall a ctx r, returns_normally (CacheItem_validateCacheView a ctx r)) /\
  (forall a p ctx r, returns_normally (CacheItem_draw a p ctx r)).

Definition collaborators_keep_depth `{Collaborators} (painter : QPainter) : Prop :=
  keeps_depth_on_return painter validateItemsCacheImpl /\
  (forall a ctx r, keeps_depth_on_return painter (CacheItem_validateCacheView a ctx r)) /\
  (forall a p ctx r, keeps_depth_on_return painter (CacheItem_draw a p ctx r)).

(** A visitor that leaves the heap of cache items alone. *)
Definition heap_stable {X A} (visitor : X -> M World A) : Prop :=
  forall x w, heap (state_of (visitor x w)) = heap w.

(** ** Instances used to run the engine *)

Definition qt5_debug : QtPlatform :=
  {| qt_debug := true; QRect_normalized := normalized_qt5 |}.

Definition qt5_release : QtPlatform :=
  {| qt_debug := false; QRect_normalized := normalized_qt5 |}.

(** Modelled from the spec: the header with the [ChangeReason] bits is
    missing; these are the canonical bits in the order the spec lists them. *)
Definition canonical_bits : ChangeReasonBits :=
  {| ChangeReasonSpaceStructure := 1%Z;
     ChangeReasonSpaceHint := 2%Z;
     ChangeReasonSpaceItemsStructure := 4%Z;
     ChangeReasonSpaceItemsContent := 8%Z;
     ChangeReasonCacheContent := 16%Z |}.

(** A validation that keeps the store, clears the flag and resets the
    deltas. *)
Definition validate_keep : M World unit :=
  modify (fun w =>
    set_m_itemsCacheInvalid false (set_m_sizeDelta (mkQSize 0%Z 0%Z)
      (set_m_scrollDelta (mkQPoint 0%Z 0%Z) w))).

(** Items that only record what is asked of them. *)
Definition recording_items : Collaborators :=
  {| validateItemsCacheImpl := validate_keep;
     CacheItem_validateCacheView := fun a _ _ => emit (EvItemValidateCacheView a);
     CacheItem_draw := fun a painter _ _ => emit (EvItemDraw a painter) |}.

(** Items whose painting raises [e] at the item behind [bad]. *)
Definition raising_items (bad : Addr) (e : Exn) : Collaborators :=
  {| validateItemsCacheImpl := validate_keep;
     CacheItem_validateCacheView := fun a _ _ => emit (EvItemValidateCacheView a);
     CacheItem_draw := fun a painter _ _ =>
       emit (EvItemDraw a painter) ;;
       if Nat.eqb a bad then throw e else ret tt |}.


(** A cache of three items: a leaf view, no view, a tree of three views. *)
Definition demo_heap : list CacheItem :=
  [ mkCacheItem 10 (QRect_ltwh 0%Z 0%Z 100%Z 20%Z) (Some (ViewNode 0 [])) 0 0;
    mkCacheItem 11 (QRect_ltwh 0%Z 20%Z 100%Z 20%Z) None 0 0;
    mkCacheItem 12 (QRect_ltwh 0%Z 40%Z 100%Z 20%Z)
                (Some (ViewNode 1 [ViewNode 2 []; ViewNode 3 []])) 0 0 ].

Definition demo_world : World :=
  {| m_space := 1;
     m_viewApplicationMask := 1%Z;
     m_cacheItemsFactory := Some (mkFactory 1%Z 0);
     m_window := QRect_ltwh 0%Z 0%Z 100%Z 60%Z;
     m_scrollOffset := mkQPoint 0%Z 0%Z;
     m_scrollDelta := mkQPoint 0%Z 0%Z;
     m_sizeDelta := mkQSize 0%Z 0%Z;
     m_itemsCacheInvalid := false;
     m_cacheIsInUse := false;
     m_drawProxy := None;
     cacheItems := [0; 1; 2]%nat;
     heap := demo_heap;
     space_factories := 1;
     trace := [] |}.

(** The demo cache with the guard held. *)
Definition demo_world_in_use : World := set_m_cacheIsInUse true demo_world.

(** A visitor that stops at the second view of an item. *)
Definition stop_at_second_view (info : IterateInfo) : M World bool :=
  ret (negb (cacheViewIndex info =? 1)%Z).

(** ** Lookup, hit test and tooltip *)

(** Modelled from the spec: [core/ControllerMouse.h] is missing.  A
    [ControllerContext] carries the pointer position, read as
    [context.point], and further input state the engine never looks at. *)
Record ControllerContext := mkControllerContext {
  point : QPoint;
  context_state : nat
}.

(** [ControllerMouse*] and [TooltipInfo]: opaque to the engine. *)
Abbreviation ControllerMouse := nat (only parsing).
Abbreviation TooltipInfo := nat (only parsing).

(** More code the engine calls and does not own: [create] of the factory,
    the two lookups of the concrete subclass and the two [CacheItem]
    operations input is routed to.  An output parameter is the last
    argument, its value after the call is (part of) the result. *)
Class Dispatch := {
  CacheItemFactory_create : CacheItemFactory -> ItemID -> M World CacheItem;
  cacheItemImpl : ItemID -> M World (option Addr);
  cacheItemByPositionImpl : QPoint -> M World (option Addr);
  CacheItem_tryActivateControllers :
    Addr -> ControllerContext -> QRect -> list ControllerMouse ->
    M World (list ControllerMouse);
  CacheItem_tooltipByPoint : Addr -> QPoint -> TooltipInfo -> M World (bool * TooltipInfo)
}.

Section CacheSpaceDispatch.
Context {qt : QtPlatform} {ext : Collaborators} {dispatch : Dispatch}.

(** [QSharedPointer<CacheItem> createCacheItem(const ItemID& visibleItem)
    const]: the item made by the factory is moved to a new shared object. *)
Definition createCacheItem (visibleItem : ItemID) : M World Addr :=
  factory <- gets m_cacheItemsFactory ;;
  match factory with
  | Some f =>
      it <- CacheItemFactory_create f visibleItem ;;
      fun w => Ok (length (heap w)) (set_heap (heap w ++ [it]) w)
  | None => fun w => Fatal BadPointer w
  end.

(** [const CacheItem* cacheItem(const ItemID& visibleItem) const]. *)
Definition cacheItem_of (visibleItem : ItemID) : M World (option Addr) :=
  validateItemsCache ;;
  cacheItemImpl visibleItem.

(** [const CacheItem* cacheItemByPosition(const QPoint& point) const]. *)
Definition cacheItemByPosition (point : QPoint) : M World (option Addr) :=
  validateItemsCache ;;
  cacheItemByPositionImpl point.

(** [void tryActivateControllers(const ControllerContext& context,
    QVector<ControllerMouse*>& controllers) const]. *)
Definition tryActivateControllers (context : ControllerContext)
    (controllers : list ControllerMouse) : M World (list ControllerMouse) :=
  validateItemsCache ;;
  auto_value m_cacheIsInUse set_m_cacheIsInUse true
    (cacheItem <- cacheItemByPosition (point context) ;;
     match cacheItem with
     | None => ret controllers
     | Some a =>
         window <- gets m_window ;;
         CacheItem_tryActivateControllers a context window controllers
     end).

(** [bool tooltipByPoint(const QPoint& point, TooltipInfo& tooltipInfo)
    const]. *)
Definition tooltipByPoint (point : QPoint) (tooltipInfo : TooltipInfo)
    : M World (bool * TooltipInfo) :=
  validateItemsCache ;;
  auto_value m_cacheIsInUse set_m_cacheIsInUse true
    (cacheItem <- cacheItemByPosition point ;;
     match cacheItem with
     | None => ret (false, tooltipInfo)
     | Some a => CacheItem_tooltipByPoint a point tooltipInfo
     end).

End CacheSpaceDispatch.

(** ** Sequences of calls on the window and the scroll offset *)

Inductive SetterCall :=
| CallSetWindow (window : QRect)
| CallSetScrollOffset (scrollOffset : QPoint)
| CallSet (window : QRect) (scrollOffset : QPoint).

Definition run_setter `{QtPlatform} `{ChangeReasonBits} (c : SetterCall) : M World unit :=
  match c with
  | CallSetWindow window => setWindow window
  | CallSetScrollOffset scrollOffset => setScrollOffset scrollOffset
  | CallSet window scrollOffset => set window scrollOffset
  end.

Fixpoint run_setters `{QtPlatform} `{ChangeReasonBits} (cs : list SetterCall) : M World unit :=
  match cs with
  | [] => ret tt
  | c :: cs' => run_setter c ;; run_setters cs'
  end.

(** Every cached pointer leads to an item without a view. *)
Definition viewless (w : World) : Prop :=
  Forall (fun a => exists it, heap w !! a = Some it /\ item_cacheView it = None)
         (cacheItems w).

(** What [draw] appends to the trace when the items only record. *)
Definition draw_events (painter : QPainter) (w : World) : list Event :=
  map EvItemValidateCacheView (cacheItems w) ++
  [EvPreDraw; EvPainterSave painter; EvPainterSetClipRect painter (m_window w)] ++
  map (fun a => EvItemDraw a painter) (cacheItems w) ++
  [EvPainterRestore painter].

(** ** More instances used to run the engine *)

(** A factory code that makes an empty item wired to the factory. *)
Definition plain_create (f : CacheItemFactory) (id : ItemID) : M World CacheItem :=
  ret (mkCacheItem id (QRect_ltwh 0 0 0 0) None (factory_serial f) 0).

(** Lookups that find nothing. *)
Definition missing_dispatch : Dispatch :=
  {| CacheItemFactory_create := plain_create;
     cacheItemImpl := fun _ => ret None;
     cacheItemByPositionImpl := fun _ => ret None;
     CacheItem_tryActivateControllers := fun a _ _ cs => ret (cs ++ [a]);
     CacheItem_tooltipByPoint := fun a _ _ => ret (true, a) |}.


(** A non-normalized rectangle whose normal form is the window of the demo
    cache, and a longer run of calls. *)
Definition flipped_window : QRect := mkQRect 99 59 0 0.

Definition demo_calls : list SetterCall :=
  [ CallSetScrollOffset (mkQPoint 0 25);
    CallSetWindow (QRect_ltwh 10 10 50 40);
    CallSet (QRect_ltwh 0 0 100 60) (mkQPoint 5 0) ].

(** The demo cache with one pointer stored twice. *)
Definition demo_world_dup : World := set_cacheItems [0; 1; 0]%nat demo_world.

(** The origin and the window size as of the last validation: what they are
    now, less the pending deltas. *)
Definition validated_origin (w : World) : QPoint :=
  QPoint_sub (originPos w) (m_scrollDelta w).

Definition validated_size (w : World) : QSize :=
  QSize_sub (QRect_size (m_window w)) (m_sizeDelta w).

(** A computation leaves an observation of the world as it is, however it
    ends. *)
Definition keeps {X A} (f : World -> X) (m : M World A) : Prop :=
  forall w, f (state_of (m w)) = f w.

(** A computation keeps a property of the world, however it ends. *)
Definition preserves {A} (P : World -> Prop) (m : M World A) : Prop :=
  forall w, P w -> P (state_of (m w)).

(** The pending deltas are [int]s. *)
Definition scrollDelta_is_int (w : World) : Prop := is_QPoint (m_scrollDelta w).
Definition sizeDelta_is_int (w : World) : Prop := is_QSize (m_sizeDelta w).

(** What the host has set on the engine and the guard: members that change
    events from the space never touch. *)
Definition host_settings (w : World) :=
  (m_space w, m_viewApplicationMask w, m_window w, m_scrollOffset w,
   m_scrollDelta w, m_sizeDelta w, m_cacheIsInUse w, m_drawProxy w).

(** * Properties *)

(** Goals that say a concrete or bounded number is an [int]. *)
Ltac int_range :=
  unfold is_QPoint, is_QSize, is_int, int_min, int_max in *; cbn in *; lia.

(** ** 32-bit arithmetic *)

Section IntFacts.
Local Open Scope Z_scope.

Lemma int_wrap_is_int (z : Z) : is_int (int_wrap z).
Proof.
  unfold is_int, int_wrap, int_min, int_max.
  pose proof (Z.mod_pos_bound (z + 2 ^ 31) (2 ^ 32) ltac:(lia)). lia.
Qed.

Lemma int_wrap_small (z : Z) : is_int z -> int_wrap z = z.
Proof.
  unfold is_int, int_wrap, int_min, int_max. intros Hz.
  rewrite Z.mod_small by lia. lia.
Qed.

Lemma int_wrap_add_l (a b : Z) : int_wrap (int_wrap a + b) = int_wrap (a + b).
Proof.
  unfold int_wrap.
  replace ((a + 2 ^ 31) mod 2 ^ 32 - 2 ^ 31 + b + 2 ^ 31)
    with ((a + 2 ^ 31) mod 2 ^ 32 + b) by lia.
  rewrite Zplus_mod_idemp_l. f_equal. f_equal. lia.
Qed.

Lemma int_wrap_sub_l (a b : Z) : int_wrap (int_wrap a - b) = int_wrap (a - b).
Proof. rewrite <- !Z.add_opp_r. apply int_wrap_add_l. Qed.

Lemma int_sub_diag (a : Z) : int_sub a a = 0.
Proof. unfold int_sub. rewrite Z.sub_diag. reflexivity. Qed.

Lemma int_add_0_r (a : Z) : is_int a -> int_add a 0 = a.
Proof. intros Ha. unfold int_add. rewrite Z.add_0_r. by apply int_wrap_small. Qed.

Lemma QPoint_sub_diag (p : QPoint) : QPoint_sub p p = mkQPoint 0 0.
Proof. unfold QPoint_sub. by rewrite !int_sub_diag. Qed.

Lemma QSize_sub_diag (s : QSize) : QSize_sub s s = mkQSize 0 0.
Proof. unfold QSize_sub. by rewrite !int_sub_diag. Qed.

Lemma QPoint_add_0_r (p : QPoint) : is_QPoint p -> QPoint_add p (mkQPoint 0 0) = p.
Proof.
  intros [Hx Hy]. destruct p as [x y]; simpl in *.
  unfold QPoint_add; simpl. by rewrite !int_add_0_r.
Qed.

Lemma QSize_add_0_r (s : QSize) : is_QSize s -> QSize_add s (mkQSize 0 0) = s.
Proof.
  intros [Hx Hy]. destruct s as [x y]; simpl in *.
  unfold QSize_add; simpl. by rewrite !int_add_0_r.
Qed.

(** Subtracting and adding back the same amount returns to the start,
    whatever wrapped in between. *)
Lemma int_sub_add_cancel (a b c : Z) :
  is_int a -> int_add (int_sub (int_add (int_sub a b) c) c) b = a.
Proof.
  intros Ha. unfold int_add, int_sub.
  rewrite (int_wrap_add_l (a - b) c), (int_wrap_sub_l (a - b + c) c), int_wrap_add_l.
  replace (a - b + c - c + b) with a by lia. by apply int_wrap_small.
Qed.

End IntFacts.

(** ** Coordinate mapping *)

(** C5: [window2Space] and [space2Window] are inverse to each other at every
    point and in every state, and each computes its formula exactly in
    32-bit arithmetic: [p - window.topLeft + scrollOffset], respectively
    [p - scrollOffset + window.topLeft]. *)
Theorem window2Space_space2Window_inverse (w : World) (p : QPoint) :
  is_QPoint p ->
  space2Window w (window2Space w p) = p /\
  window2Space w (space2Window w p) = p /\
  xp (window2Space w p) = int_wrap (xp p - x1 (m_window w) + xp (m_scrollOffset w)) /\
  yp (window2Space w p) = int_wrap (yp p - y1 (m_window w) + yp (m_scrollOffset w)) /\
  xp (space2Window w p) = int_wrap (xp p - xp (m_scrollOffset w) + x1 (m_window w)) /\
  yp (space2Window w p) = int_wrap (yp p - yp (m_scrollOffset w) + y1 (m_window w)).
Proof.
  intros [Hx Hy]. destruct p as [x y]; simpl in *.
  unfold space2Window, window2Space, QPoint_add, QPoint_sub, QRect_topLeft; simpl.
  repeat split.
  - f_equal; by apply int_sub_add_cancel.
  - f_equal; by apply int_sub_add_cancel.
  - unfold int_add, int_sub. apply int_wrap_add_l.
  - unfold int_add, int_sub. apply int_wrap_add_l.
  - unfold int_add, int_sub. apply int_wrap_add_l.
  - unfold int_add, int_sub. apply int_wrap_add_l.
Qed.

Lemma window2Space_space2Window_inverse_witness :
  is_QPoint (mkQPoint 2147483647 (-5)) /\
  space2Window demo_world (window2Space demo_world (mkQPoint 2147483647 (-5)))
    = mkQPoint 2147483647 (-5).
Proof.
  assert (H : is_QPoint (mkQPoint 2147483647 (-5))).
  { int_range. }
  split; [exact H |].
  exact (proj1 (window2Space_space2Window_inverse demo_world _ H)).
Defined.

(** Where the exact result fits an [int], the formula holds over the
    integers. *)
Lemma window2Space_exact (w : World) (p : QPoint) :
  is_int (xp p - x1 (m_window w) + xp (m_scrollOffset w)) ->
  is_int (yp p - y1 (m_window w) + yp (m_scrollOffset w)) ->
  window2Space w p =
    mkQPoint (xp p - x1 (m_window w) + xp (m_scrollOffset w))
             (yp p - y1 (m_window w) + yp (m_scrollOffset w)).
Proof.
  intros Hx Hy.
  unfold window2Space, QPoint_add, QPoint_sub, QRect_topLeft, int_add, int_sub; simpl.
  rewrite !int_wrap_add_l. by rewrite !int_wrap_small.
Qed.

(** [originPos] is the origin of the mapping: a space point lands at the
    point plus the origin. *)
Lemma space2Window_originPos (w : World) (p : QPoint) :
  space2Window w p = QPoint_add p (originPos w).
Proof.
  unfold space2Window, originPos, QPoint_add, QPoint_sub, QRect_topLeft, int_add, int_sub.
  cbn [xp yp]. f_equal.
  - rewrite int_wrap_add_l, (Z.add_comm (xp p)), int_wrap_add_l. f_equal. lia.
  - rewrite int_wrap_add_l, (Z.add_comm (yp p)), int_wrap_add_l. f_equal. lia.
Qed.

(** ** Setters of the window, the scroll offset and the mask *)

Section Setters.
Context {qt : QtPlatform} {bits : ChangeReasonBits}.

Lemma Q_ASSERT_holds {S} (text : string) (s : S) : Q_ASSERT true text s = Ok tt s.
Proof. reflexivity. Qed.

Lemma Q_ASSERT_guard_free (w : World) (text : string) :
  guard_free w -> Q_ASSERT (negb (m_cacheIsInUse w)) text w = Ok tt w.
Proof.
  unfold guard_free, Q_ASSERT. intros [Hd | Hu].
  - rewrite Hd. by destruct (negb _).
  - by rewrite Hu.
Qed.

Lemma Q_ASSERT_in_use (w : World) (text : string) :
  qt_debug = true -> m_cacheIsInUse w = true ->
  Q_ASSERT (negb (m_cacheIsInUse w)) text w = Fatal (AssertFailed text) w.
Proof. unfold Q_ASSERT. by intros -> ->. Qed.

Lemma invalidateItemsCache_free (w : World) :
  guard_free w ->
  invalidateItemsCache w =
    Ok tt (set_trace (trace w ++ [EvCacheChanged ChangeReasonCacheContent])
             (set_m_itemsCacheInvalid true w)).
Proof.
  intros Hg. unfold invalidateItemsCache, bind, gets.
  by rewrite (Q_ASSERT_guard_free w _ Hg).
Qed.

Lemma invalidateItemsCache_in_use (w : World) :
  qt_debug = true -> m_cacheIsInUse w = true ->
  invalidateItemsCache w = Fatal (AssertFailed "!m_cacheIsInUse") w.
Proof.
  intros Hd Hu. unfold invalidateItemsCache, bind, gets.
  by rewrite (Q_ASSERT_in_use w _ Hd Hu).
Qed.

(** C6: [setScrollOffset(q)] with the stored offset changes nothing and
    emits nothing; with another offset it adds the old offset minus [q] to
    [scrollDelta], stores [q], sets [itemsCacheInvalid] and emits
    [cacheChanged(CacheContent)].  The second part is under the contract of
    the call: the cache is not in use (or assertions are compiled out). *)
Theorem setScrollOffset_spec (w : World) (q : QPoint) :
  (q = m_scrollOffset w -> setScrollOffset q w = Ok tt w) /\
  (q <> m_scrollOffset w -> guard_free w ->
   setScrollOffset q w =
     Ok tt (set_trace (trace w ++ [EvCacheChanged ChangeReasonCacheContent])
             (set_m_itemsCacheInvalid true
               (set_m_scrollOffset q
                 (set_m_scrollDelta
                    (QPoint_add (m_scrollDelta w) (QPoint_sub (m_scrollOffset w) q)) w))))).
Proof.
  unfold setScrollOffset, bind, gets. split.
  - intros ->. by rewrite bool_decide_eq_true_2.
  - intros Hne Hg. rewrite bool_decide_eq_false_2 by congruence.
    unfold modify. by rewrite invalidateItemsCache_free.
Qed.

(** C9: the unchanged test of [setWindow] compares the raw argument.  A
    rectangle that differs from the stored window and normalizes to it
    leaves the window and both deltas as they are, and still sets
    [itemsCacheInvalid] and emits [cacheChanged(CacheContent)]. *)
Theorem setWindow_compares_raw_argument (w : World) (r : QRect) :
  r <> m_window w ->
  QRect_normalized r = m_window w ->
  guard_free w ->
  is_QPoint (m_scrollDelta w) ->
  is_QSize (m_sizeDelta w) ->
  exists w',
    setWindow r w = Ok tt w' /\
    m_window w' = m_window w /\
    m_scrollDelta w' = m_scrollDelta w /\
    m_sizeDelta w' = m_sizeDelta w /\
    m_itemsCacheInvalid w' = true /\
    trace w' = trace w ++ [EvCacheChanged ChangeReasonCacheContent] /\
    w' = set_trace (trace w ++ [EvCacheChanged ChangeReasonCacheContent])
           (set_m_itemsCacheInvalid true w).
Proof.
  intros Hne Hnorm Hg Hsd Hsz.
  exists (set_trace (trace w ++ [EvCacheChanged ChangeReasonCacheContent])
            (set_m_itemsCacheInvalid true w)).
  split; [| by repeat split].
  unfold setWindow, bind, gets. rewrite bool_decide_eq_false_2 by congruence.
  unfold modify. rewrite Hnorm. rewrite invalidateItemsCache_free by exact Hg.
  simpl. rewrite QPoint_sub_diag, QSize_sub_diag.
  rewrite QPoint_add_0_r, QSize_add_0_r by assumption.
  by destruct w.
Qed.

(** C10: [setViewApplicationMask] with the current mask returns at once:
    the whole state, factory, cached items and trace included, is as
    before. *)
Theorem setViewApplicationMask_same_mask (w : World) :
  setViewApplicationMask (m_viewApplicationMask w) w = Ok tt w.
Proof.
  unfold setViewApplicationMask, bind, gets. by rewrite Z.eqb_refl.
Qed.

End Setters.

Lemma setScrollOffset_spec_witness :
  @setScrollOffset qt5_debug canonical_bits (mkQPoint 0 25) demo_world =
    Ok tt (set_trace [EvCacheChanged 16%Z]
            (set_m_itemsCacheInvalid true
              (set_m_scrollOffset (mkQPoint 0 25)
                (set_m_scrollDelta (mkQPoint 0 (-25)) demo_world)))).
Proof.
  apply (proj2 (@setScrollOffset_spec qt5_debug canonical_bits demo_world (mkQPoint 0 25))).
  - discriminate.
  - right. reflexivity.
Defined.

Lemma setWindow_compares_raw_argument_witness :
  exists w',
    @setWindow qt5_debug canonical_bits (mkQRect 99 59 0 0) demo_world = Ok tt w' /\
    m_window w' = m_window demo_world /\
    m_scrollDelta w' = m_scrollDelta demo_world /\
    m_sizeDelta w' = m_sizeDelta demo_world /\
    m_itemsCacheInvalid w' = true /\
    trace w' = [EvCacheChanged 16%Z].
Proof.
  destruct (@setWindow_compares_raw_argument qt5_debug canonical_bits demo_world
              (mkQRect 99 59 0 0)) as (w' & H1 & H2 & H3 & H4 & H5 & H6 & _).
  - discriminate.
  - reflexivity.
  - right. reflexivity.
  - int_range.
  - int_range.
  - exists w'. repeat split; assumption.
Defined.

(** ** The heap under re-schemaing *)

Lemma alter_as_insert {A} (g : A -> A) (h : list A) (a : nat) (x : A) :
  h !! a = Some x -> alter g a h = <[a := g x]> h.
Proof.
  intros Hx. rewrite list_insert_alter.
  apply list_alter_ext; [| done]. intros y Hy. congruence.
Qed.

Lemma reschema_reschemaed (f : CacheItemFactory) (it it1 : CacheItem) :
  (it1 = it \/ reschemaed f it it1) -> reschemaed f it (reschema f it1).
Proof.
  unfold reschemaed, reschema. intros [-> | (Hi & Hr & _ & _)]; simpl; auto.
Qed.

Lemma reschema_heap_keeps (f : CacheItemFactory) (items : list Addr) :
  forall (h : list CacheItem) (a : Addr) (it it1 : CacheItem),
    h !! a = Some it1 -> reschemaed f it it1 ->
    exists it', reschema_heap f items h !! a = Some it' /\ reschemaed f it it'.
Proof.
  induction items as [| a0 items IH]; intros h a it it1 Hh Hr; simpl.
  - eauto.
  - destruct (decide (a0 = a)) as [-> | Hne].
    + apply (IH _ a it (reschema f it1)).
      * by rewrite list_lookup_alter_eq, Hh.
      * apply reschema_reschemaed. by right.
    + apply (IH _ a it it1); [| done]. by rewrite list_lookup_alter_ne.
Qed.

Lemma reschema_heap_cached (f : CacheItemFactory) (items : list Addr) :
  forall (h : list CacheItem) (a : Addr) (it : CacheItem),
    a ∈ items -> h !! a = Some it ->
    exists it', reschema_heap f items h !! a = Some it' /\ reschemaed f it it'.
Proof.
  induction items as [| a0 items IH]; intros h a it Hin Hh; simpl.
  - by apply elem_of_nil in Hin.
  - destruct (decide (a0 = a)) as [-> | Hne].
    + apply (reschema_heap_keeps f items _ a it (reschema f it)).
      * by rewrite list_lookup_alter_eq, Hh.
      * apply reschema_reschemaed. by left.
    + apply elem_of_cons in Hin as [-> | Hin]; [done |].
      apply IH; [done |]. by rewrite list_lookup_alter_ne.
Qed.

Lemma reschema_heap_other (f : CacheItemFactory) (items : list Addr) :
  forall (h : list CacheItem) (a : Addr),
    a ∉ items -> reschema_heap f items h !! a = h !! a.
Proof.
  induction items as [| a0 items IH]; intros h a Hin; simpl; [done |].
  apply not_elem_of_cons in Hin as [Hne Hin].
  rewrite IH by done. by rewrite list_lookup_alter_ne.
Qed.

Lemma live_alter (g : CacheItem -> CacheItem) (h : list CacheItem) (a b : Addr) :
  live h b -> live (alter g a h) b.
Proof.
  unfold live. rewrite !lookup_lt_is_Some. by rewrite length_alter.
Qed.

(** ** Rebuilding the factory, the space-changed handler *)

Section Handlers.
Context {qt : QtPlatform} {bits : ChangeReasonBits}.

(** The loop of [updateCacheItemsFactory] over live items. *)
Lemma reschema_loop (f : CacheItemFactory) (items : list Addr) :
  forall w : World,
    m_cacheItemsFactory w = Some f ->
    Forall (live (heap w)) items ->
    forEach items updateCacheItemsFactory_visitor w
    = Ok true (set_heap (reschema_heap f items (heap w)) w).
Proof.
  induction items as [| a items IH]; intros w Hf Hlive.
  - simpl. unfold ret. by destruct w.
  - apply Forall_cons in Hlive as [[it Hit] Hlive].
    cbn [forEach]. unfold bind at 1, updateCacheItemsFactory_visitor at 1.
    unfold bind at 1, CacheItem_update at 1, bind at 1, CacheItem_load at 1.
    rewrite Hit. unfold modify at 1.
    unfold bind at 1, gets at 1. cbn [m_cacheItemsFactory set_heap]. rewrite Hf.
    unfold bind at 1, CacheItem_update at 1, bind at 1, CacheItem_load at 1.
    cbn [heap set_heap].
    rewrite list_lookup_insert_eq by (by eapply lookup_lt_Some).
    unfold modify at 1. cbn [heap set_heap]. unfold ret at 1.
    rewrite list_insert_insert_eq.
    rewrite IH.
    + cbn [heap set_heap reschema_heap]. f_equal.
      rewrite (alter_as_insert (reschema f) _ _ _ Hit). unfold reschema. by destruct w.
    + done.
    + cbn [heap set_heap]. fold (reschema f it).
      rewrite <- (alter_as_insert (reschema f) _ _ _ Hit).
      eapply Forall_impl; [exact Hlive |]. intros b. apply live_alter.
Qed.

Lemma updateCacheItemsFactory_spec (w : World) :
  cache_wf w -> updateCacheItemsFactory w = Ok tt (rebuilt w).
Proof.
  intros Hwf. unfold updateCacheItemsFactory, bind at 1, gets at 1.
  unfold bind at 1, Space_createCacheItemFactory at 1.
  unfold bind at 1, modify at 1.
  unfold bind at 1. rewrite Q_ASSERT_holds.
  unfold bind at 1, forEachCacheItem, bind at 1. rewrite Q_ASSERT_holds.
  unfold forEachCacheItemImpl. cbn [get_world HasWorld_World].
  cbn [cacheItems set_m_cacheItemsFactory set_space_factories].
  rewrite (reschema_loop (rebuilt_factory w)).
  - unfold ret, rebuilt. by destruct w.
  - reflexivity.
  - exact Hwf.
Qed.

Lemma has_bits_lor (r a b : ChangeReason) :
  has_bits r (Z.lor a b) = has_bits r a || has_bits r b.
Proof.
  unfold has_bits. rewrite Z.land_lor_distr_r.
  destruct (Z.eqb_spec (Z.land r a) 0) as [Ha | Ha];
    destruct (Z.eqb_spec (Z.land r b) 0) as [Hb | Hb]; simpl.
  - rewrite Ha, Hb. reflexivity.
  - apply negb_true_iff, Z.eqb_neq. rewrite Z.lor_eq_0_iff. tauto.
  - apply negb_true_iff, Z.eqb_neq. rewrite Z.lor_eq_0_iff. tauto.
  - apply negb_true_iff, Z.eqb_neq. rewrite Z.lor_eq_0_iff. tauto.
Qed.

Lemma clear_free (w : World) :
  guard_free w ->
  clear w =
    Ok tt (set_trace (trace w ++ [EvCacheChanged ChangeReasonCacheContent])
            (set_m_itemsCacheInvalid true (set_cacheItems [] w))).
Proof.
  intros Hg. unfold clear, bind at 1, clearItemsCache, bind at 1, gets at 1.
  unfold bind at 1. rewrite (Q_ASSERT_guard_free w _ Hg).
  unfold clearItemsCacheImpl, modify. by rewrite invalidateItemsCache_free.
Qed.

(** C4: the space-changed handler classifies the reason in this order.  With
    the SpaceStructure bit the cache is cleared and the one signal is
    [cacheChanged(CacheContent)]; else with a SpaceHint or
    SpaceItemsStructure bit the factory is rebuilt, every cached item loses
    its view and gets the schema of the new factory, and the one signal is
    [cacheChanged(R | CacheContent)]; else with the SpaceItemsContent bit
    nothing but [cacheChanged(R | CacheContent)] happens; else nothing
    happens at all, in particular for [R = CacheContent] when that bit is
    none of the four others.  The handler is run by the space it observes,
    with the cache not in use and the cached pointers live. *)
Theorem onSpaceChanged_classification (w : World) (R : ChangeReason) :
  guard_free w ->
  cache_wf w ->
  (has_bits R ChangeReasonSpaceStructure = true ->
   onSpaceChanged (m_space w) R w =
     Ok tt (set_trace (trace w ++ [EvCacheChanged ChangeReasonCacheContent])
             (set_m_itemsCacheInvalid true (set_cacheItems [] w)))) /\
  (has_bits R ChangeReasonSpaceStructure = false ->
   has_bits R ChangeReasonSpaceHint = true \/
     has_bits R ChangeReasonSpaceItemsStructure = true ->
   onSpaceChanged (m_space w) R w =
     Ok tt (set_trace
              (trace w ++ [EvCacheChanged (Z.lor R ChangeReasonCacheContent)])
              (rebuilt w)) /\
   m_cacheItemsFactory (rebuilt w) =
     Some (mkFactory (m_viewApplicationMask w) (space_factories w)) /\
   cacheItems (rebuilt w) = cacheItems w /\
   trace (rebuilt w) = trace w /\
   (forall a it, a ∈ cacheItems w -> heap w !! a = Some it ->
      exists it', heap (rebuilt w) !! a = Some it' /\
                  reschemaed (rebuilt_factory w) it it') /\
   (forall a, a ∉ cacheItems w -> heap (rebuilt w) !! a = heap w !! a)) /\
  (has_bits R ChangeReasonSpaceStructure = false ->
   has_bits R ChangeReasonSpaceHint = false ->
   has_bits R ChangeReasonSpaceItemsStructure = false ->
   has_bits R ChangeReasonSpaceItemsContent = true ->
   onSpaceChanged (m_space w) R w =
     Ok tt (set_trace
              (trace w ++ [EvCacheChanged (Z.lor R ChangeReasonCacheContent)]) w)) /\
  (has_bits R ChangeReasonSpaceStructure = false ->
   has_bits R ChangeReasonSpaceHint = false ->
   has_bits R ChangeReasonSpaceItemsStructure = false ->
   has_bits R ChangeReasonSpaceItemsContent = false ->
   onSpaceChanged (m_space w) R w = Ok tt w) /\
  (R = ChangeReasonCacheContent ->
   has_bits ChangeReasonCacheContent ChangeReasonSpaceStructure = false ->
   has_bits ChangeReasonCacheContent ChangeReasonSpaceHint = false ->
   has_bits ChangeReasonCacheContent ChangeReasonSpaceItemsStructure = false ->
   has_bits ChangeReasonCacheContent ChangeReasonSpaceItemsContent = false ->
   onSpaceChanged (m_space w) R w = Ok tt w).
Proof.
  intros Hg Hwf.
  assert (Hentry :
            onSpaceChanged (m_space w) R w =
              (if has_bits R ChangeReasonSpaceStructure then clear
               else if has_bits R (Z.lor ChangeReasonSpaceHint
                                         ChangeReasonSpaceItemsStructure) then
                 updateCacheItemsFactory ;;
                 emit (EvCacheChanged (Z.lor R ChangeReasonCacheContent))
               else if has_bits R ChangeReasonSpaceItemsContent then
                 emit (EvCacheChanged (Z.lor R ChangeReasonCacheContent))
               else ret tt) w).
  { unfold onSpaceChanged, bind at 1, gets at 1, bind at 1.
    by rewrite Nat.eqb_refl, Q_ASSERT_holds. }
  assert (Hnone : has_bits R ChangeReasonSpaceStructure = false ->
                  has_bits R ChangeReasonSpaceHint = false ->
                  has_bits R ChangeReasonSpaceItemsStructure = false ->
                  has_bits R ChangeReasonSpaceItemsContent = false ->
                  onSpaceChanged (m_space w) R w = Ok tt w).
  { intros H1 H2 H3 H4. rewrite Hentry, H1, has_bits_lor, H2, H3, H4. reflexivity. }
  repeat apply conj.
  - intros H1. rewrite Hentry, H1. by apply clear_free.
  - intros H1 H23. repeat apply conj.
    + rewrite Hentry, H1, has_bits_lor.
      replace (has_bits R ChangeReasonSpaceHint
               || has_bits R ChangeReasonSpaceItemsStructure)
        with true
        by (destruct H23 as [-> | ->]; [reflexivity | symmetry; apply orb_true_r]).
      unfold bind. rewrite updateCacheItemsFactory_spec by exact Hwf. reflexivity.
    + reflexivity.
    + reflexivity.
    + reflexivity.
    + intros a it Hin Hit. by apply reschema_heap_cached.
    + intros a Hin. by apply reschema_heap_other.
  - intros H1 H2 H3 H4. rewrite Hentry, H1, has_bits_lor, H2, H3, H4. reflexivity.
  - exact Hnone.
  - intros ->. exact Hnone.
Qed.

End Handlers.

Lemma demo_world_wf : cache_wf demo_world.
Proof. unfold cache_wf, live. repeat constructor; eexists; reflexivity. Qed.

Lemma demo_world_free (qt : QtPlatform) : guard_free demo_world.
Proof. right. reflexivity. Qed.

Lemma onSpaceChanged_classification_witness :
  @onSpaceChanged qt5_debug canonical_bits 1 3 demo_world =
    Ok tt (set_trace [EvCacheChanged 16]
            (set_m_itemsCacheInvalid true (set_cacheItems [] demo_world))) /\
  @onSpaceChanged qt5_debug canonical_bits 1 6 demo_world =
    Ok tt (set_trace [EvCacheChanged 22] (rebuilt demo_world)) /\
  @onSpaceChanged qt5_debug canonical_bits 1 8 demo_world =
    Ok tt (set_trace [EvCacheChanged 24] demo_world) /\
  @onSpaceChanged qt5_debug canonical_bits 1 32 demo_world = Ok tt demo_world /\
  @onSpaceChanged qt5_debug canonical_bits 1 16 demo_world = Ok tt demo_world.
Proof.
  pose proof (fun R => @onSpaceChanged_classification qt5_debug canonical_bits
                         demo_world R (demo_world_free _) demo_world_wf) as H.
  repeat apply conj.
  - apply (proj1 (H 3%Z)). reflexivity.
  - apply (proj1 (proj2 (H 6%Z))); [reflexivity | left; reflexivity].
  - apply (proj1 (proj2 (proj2 (H 8%Z)))); reflexivity.
  - apply (proj1 (proj2 (proj2 (proj2 (H 32%Z))))); reflexivity.
  - apply (proj2 (proj2 (proj2 (proj2 (H 16%Z))))); reflexivity.
Defined.

(** ** The mask setter never stores the mask *)

Section Mask.
Context {qt : QtPlatform} {bits : ChangeReasonBits}.

(** With another mask the factory is rebuilt and the signal emitted, and
    the stored mask stays the old one: the new factory is made for it. *)
Lemma setViewApplicationMask_other_mask (w : World) (mask : ViewApplicationMask) :
  mask <> m_viewApplicationMask w ->
  cache_wf w ->
  setViewApplicationMask mask w =
    Ok tt (set_trace (trace w ++ [EvCacheChanged ChangeReasonCacheContent]) (rebuilt w)) /\
  viewApplicationMask (rebuilt w) = m_viewApplicationMask w /\
  m_cacheItemsFactory (rebuilt w) =
    Some (mkFactory (m_viewApplicationMask w) (space_factories w)).
Proof.
  intros Hne Hwf. repeat apply conj; [| reflexivity | reflexivity].
  unfold setViewApplicationMask, bind at 1, gets at 1.
  replace (m_viewApplicationMask w =? mask)%Z with false
    by (symmetry; apply Z.eqb_neq; congruence).
  cbn [negb]. unfold bind. rewrite updateCacheItemsFactory_spec by exact Hwf.
  reflexivity.
Qed.

End Mask.

(** C1: on a cache built with mask 1, [setViewApplicationMask(2)] rebuilds
    the factory, re-schemas the items and emits [cacheChanged(CacheContent)],
    and [viewApplicationMask()] afterwards is still 1; the rebuilt factory is
    one for mask 1. *)
Theorem setViewApplicationMask_keeps_old_mask :
  exists w',
    @setViewApplicationMask qt5_debug canonical_bits 2 demo_world = Ok tt w' /\
    viewApplicationMask w' = 1%Z /\
    viewApplicationMask w' <> 2%Z /\
    m_cacheItemsFactory w' = Some (mkFactory 1 1) /\
    trace w' = [EvCacheChanged 16].
Proof.
  eexists. split; [vm_compute; reflexivity |].
  repeat split. discriminate.
Qed.

(** ** Drawing *)

(** *** Painter depth along a computation *)

Lemma bind_Ok_inv {S A B} (m : M S A) (k : A -> M S B) (s s' : S) (b : B) :
  bind m k s = Ok b s' -> exists a s1, m s = Ok a s1 /\ k a s1 = Ok b s'.
Proof.
  unfold bind. destruct (m s) as [a s1 | e s1 | f s1]; [eauto | discriminate..].
Qed.

Lemma painter_depth_app (p : QPainter) (t1 t2 : list Event) :
  painter_depth p (t1 ++ t2) = (painter_depth p t1 + painter_depth p t2)%Z.
Proof.
  induction t1 as [| e t1 IH]; [reflexivity |].
  destruct e; simpl; rewrite ?IH; lia.
Qed.

Section Shifts.
Context (p : QPainter).

Lemma shifts_eq {A} (d d' : Z) (m : M World A) : shifts p d m -> d = d' -> shifts p d' m.
Proof. by intros H <-. Qed.

Lemma shifts_ret {A} (a : A) : shifts p 0 (ret a).
Proof. intros w a' w' [= <- <-]. lia. Qed.

Lemma shifts_gets {A} (f : World -> A) : shifts p 0 (gets f).
Proof. intros w a' w' [= <- <-]. lia. Qed.

Lemma shifts_bind {A B} (d1 d2 : Z) (m : M World A) (k : A -> M World B) :
  shifts p d1 m -> (forall a, shifts p d2 (k a)) -> shifts p (d1 + d2) (bind m k).
Proof.
  intros Hm Hk w b w' Hb.
  apply bind_Ok_inv in Hb as (a & w1 & H1 & H2).
  rewrite (Hk _ _ _ _ H2), (Hm _ _ _ H1). lia.
Qed.

Lemma shifts_emit (e : Event) : shifts p (painter_depth p [e]) (emit e).
Proof.
  intros w a w' H. injection H as _ <-. cbn [trace set_trace]. apply painter_depth_app.
Qed.

Lemma shifts_forEach {X} (xs : list X) (visitor : X -> M World bool) :
  (forall x, shifts p 0 (visitor x)) -> shifts p 0 (forEach xs visitor).
Proof.
  intros Hv. induction xs as [| x xs IH]; cbn [forEach].
  - apply shifts_ret.
  - apply (shifts_bind 0 0); [apply Hv |].
    intros [|]; [exact IH | apply shifts_ret].
Qed.

Lemma shifts_Q_ASSERT {qt : QtPlatform} (c : bool) (text : string) :
  shifts p 0 (Q_ASSERT c text).
Proof.
  intros w a w'. unfold Q_ASSERT.
  destruct c; [| destruct qt_debug]; intros H; try discriminate;
    injection H as _ <-; lia.
Qed.

Lemma shifts_forEachCacheItem {qt : QtPlatform} (visitor : nat -> M World bool) :
  (forall x, shifts p 0 (visitor x)) -> shifts p 0 (forEachCacheItem visitor).
Proof.
  intros Hv w b w' H. unfold forEachCacheItem, bind in H.
  rewrite Q_ASSERT_holds in H. revert H. by apply shifts_forEach.
Qed.

Lemma shifts_in_use_scope {A} (d : Z) (value : bool) (scope : M World A) :
  shifts p d scope -> shifts p d (auto_value m_cacheIsInUse set_m_cacheIsInUse value scope).
Proof.
  intros Hs w a w'. unfold auto_value.
  destruct (scope _) as [a1 w1 | |] eqn:E; [| discriminate..].
  intros [= <- <-]. apply Hs in E. exact E.
Qed.

End Shifts.

(** *** Normal return along a computation *)

Lemma returns_bind {A B} (m : M World A) (k : A -> M World B) :
  returns_normally m -> (forall a, returns_normally (k a)) -> returns_normally (bind m k).
Proof.
  intros Hm Hk w. unfold bind. specialize (Hm w).
  destruct (m w); [apply Hk | discriminate..].
Qed.

Lemma returns_forEach {X} (xs : list X) (visitor : X -> M World bool) :
  (forall x, returns_normally (visitor x)) -> returns_normally (forEach xs visitor).
Proof.
  intros Hv. induction xs as [| x xs IH]; cbn [forEach]; [done |].
  apply returns_bind; [apply Hv |]. by intros [|].
Qed.

Lemma returns_in_use_scope {A} (value : bool) (scope : M World A) :
  returns_normally scope ->
  returns_normally (auto_value m_cacheIsInUse set_m_cacheIsInUse value scope).
Proof.
  intros Hs w. unfold auto_value.
  specialize (Hs (set_m_cacheIsInUse value w)). by destruct (scope _).
Qed.

Section Draw.
Context {qt : QtPlatform} {ext : Collaborators}.

Lemma returns_forEachCacheItem (visitor : nat -> M World bool) :
  (forall x, returns_normally (visitor x)) -> returns_normally (forEachCacheItem visitor).
Proof.
  intros Hv w. unfold forEachCacheItem, bind. rewrite Q_ASSERT_holds.
  by apply returns_forEach.
Qed.

Lemma draw_shifts (painter : QPainter) (ctx : GuiContext) :
  collaborators_keep_depth painter -> shifts painter 0 (draw painter ctx).
Proof.
  intros (Hv & Hcv & Hd). unfold draw.
  apply (shifts_bind painter 0 0).
  { unfold validateItemsCache. apply (shifts_bind painter 0 0); [apply shifts_gets |].
    intros [|]; [exact Hv | apply shifts_ret]. }
  intros _. apply shifts_in_use_scope.
  apply (shifts_bind painter 0 0).
  { apply shifts_forEachCacheItem. intros a.
    apply (shifts_bind painter 0 0); [apply shifts_gets | intros r].
    apply (shifts_bind painter 0 0); [apply Hcv | intros _; apply shifts_ret]. }
  intros _. apply (shifts_bind painter 0 0); [apply (shifts_emit painter EvPreDraw) |].
  intros _. apply (shifts_bind painter 1 (-1)).
  { eapply shifts_eq; [apply shifts_emit |]. simpl. by rewrite Nat.eqb_refl. }
  intros _. apply (shifts_bind painter 0 (-1)); [apply shifts_gets | intros r].
  apply (shifts_bind painter 0 (-1)); [apply (shifts_emit painter (EvPainterSetClipRect _ _)) |].
  intros _. apply (shifts_bind painter 0 (-1)).
  { apply shifts_forEachCacheItem. intros a.
    apply (shifts_bind painter 0 0); [apply shifts_gets | intros r'].
    apply (shifts_bind painter 0 0); [apply Hd | intros _; apply shifts_ret]. }
  intros _. eapply shifts_eq; [apply shifts_emit |]. simpl. by rewrite Nat.eqb_refl.
Qed.

Lemma draw_returns (painter : QPainter) (ctx : GuiContext) :
  collaborators_return -> returns_normally (draw painter ctx).
Proof.
  intros (Hv & Hcv & Hd). unfold draw.
  apply returns_bind.
  { unfold validateItemsCache. apply returns_bind; [done |]. by intros [|]. }
  intros _. apply returns_in_use_scope.
  apply returns_bind.
  { apply returns_forEachCacheItem. intros a. apply returns_bind; [done | intros r].
    apply returns_bind; [apply Hcv | done]. }
  intros _. do 4 (apply returns_bind; [done | intros ?]).
  apply returns_bind; [| done].
  apply returns_forEachCacheItem. intros item. apply returns_bind; [done | intros r].
  apply returns_bind; [apply Hd | done].
Qed.

Lemma draw_ends_with_restore (painter : QPainter) (ctx : GuiContext) (w w' : World) :
  draw painter ctx w = Ok tt w' -> exists t, trace w' = t ++ [EvPainterRestore painter].
Proof.
  unfold draw. intros H.
  apply bind_Ok_inv in H as (_ & w1 & _ & H).
  unfold auto_value in H.
  destruct (bind _ _ _) as [x w2 | |] eqn:E in H; [| discriminate..].
  injection H as _ <-.
  do 6 (apply bind_Ok_inv in E as (? & ? & _ & E)).
  injection E as _ <-. eexists. reflexivity.
Qed.

(** C3, as the code has it: every execution of [draw] that returns leaves
    the painter with as many unmatched saves as it found, its last act being
    [painter->restore()]; and [draw] returns whenever the validation and the
    items it calls return.  Nothing restores the painter when painting
    raises. *)
Theorem draw_restores_painter_on_return (painter : QPainter) (ctx : GuiContext) (w : World) :
  collaborators_keep_depth painter ->
  (forall w', draw painter ctx w = Ok tt w' ->
     painter_depth painter (trace w') = painter_depth painter (trace w) /\
     exists t, trace w' = t ++ [EvPainterRestore painter]) /\
  (collaborators_return -> returns (draw painter ctx w) = true).
Proof.
  intros Hk. split.
  - intros w' H. split; [| by eapply draw_ends_with_restore].
    rewrite (draw_shifts painter ctx Hk _ _ _ H). lia.
  - intros Hr. by apply draw_returns.
Qed.

End Draw.

Lemma validate_keep_shifts (p : QPainter) : shifts p 0 validate_keep.
Proof. intros w a w' H. injection H as _ <-. cbn. lia. Qed.

Lemma recording_items_keep_depth (p : QPainter) :
  @collaborators_keep_depth recording_items p.
Proof.
  repeat apply conj; cbn.
  - apply validate_keep_shifts.
  - intros a ctx r. apply (shifts_emit p (EvItemValidateCacheView a)).
  - intros a q ctx r. apply (shifts_emit p (EvItemDraw a q)).
Qed.

Lemma recording_items_return : @collaborators_return recording_items.
Proof. repeat apply conj; cbn; intros; intro; reflexivity. Qed.

Lemma draw_restores_painter_on_return_witness :
  exists w',
    @draw qt5_debug recording_items 5 6 demo_world = Ok tt w' /\
    painter_depth 5 (trace w') = painter_depth 5 (trace demo_world) /\
    returns (@draw qt5_debug recording_items 5 6 demo_world) = true.
Proof.
  pose proof (@draw_restores_painter_on_return qt5_debug recording_items 5 6 demo_world
                (recording_items_keep_depth 5)) as [Hbal Hret].
  exists (state_of (@draw qt5_debug recording_items 5 6 demo_world)).
  assert (E : @draw qt5_debug recording_items 5 6 demo_world =
              Ok tt (state_of (@draw qt5_debug recording_items 5 6 demo_world)))
    by (vm_compute; reflexivity).
  split; [exact E |].
  split; [exact (proj1 (Hbal _ E)) | exact (Hret recording_items_return)].
Defined.

(** C3 as stated fails: when painting the second item raises, the
    exception leaves [draw] with the painter saved and not restored. *)
Lemma draw_skips_restore_when_painting_raises :
  exists w',
    @draw qt5_debug (raising_items 1 9) 5 6 demo_world = Raised 9 w' /\
    trace w' =
      [ EvItemValidateCacheView 0; EvItemValidateCacheView 1; EvItemValidateCacheView 2;
        EvPreDraw;
        EvPainterSave 5; EvPainterSetClipRect 5 (mkQRect 0 0 99 59);
        EvItemDraw 0 5; EvItemDraw 1 5 ] /\
    painter_depth 5 (trace w') = 1%Z /\
    painter_depth 5 (trace demo_world) = 0%Z /\
    m_cacheIsInUse w' = false.
Proof.
  eexists. split; [vm_compute; reflexivity |]. repeat split.
Qed.

(** ** The in-use guard *)

Section Guard.
Context {qt : QtPlatform} {bits : ChangeReasonBits}.



End Guard.



(** ** Traversal of the cached views *)

Lemma CacheView_ind (P : CacheView -> Prop) :
  (forall tag cs, Forall P cs -> P (ViewNode tag cs)) -> forall v, P v.
Proof.
  intros H. fix IH 1. intros [tag cs]. apply H.
  induction cs as [| c cs IHcs]; constructor; [apply IH | exact IHcs].
Qed.

Lemma forEach_app {S X} (xs ys : list X) (visitor : X -> M S bool) (s : S) :
  forEach (xs ++ ys) visitor s =
    (b <- forEach xs visitor ;; if b : bool then forEach ys visitor else ret false) s.
Proof.
  revert s. induction xs as [| x xs IH]; intros s; [reflexivity |].
  cbn [app forEach]. unfold bind.
  destruct (visitor x s) as [[|] s1 | e s1 | f s1]; try reflexivity.
  rewrite IH. reflexivity.
Qed.

Lemma bind_eq {S A B} (m m' : M S A) (k k' : A -> M S B) (s : S) :
  m s = m' s -> (forall a s', k a s' = k' a s') -> bind m k s = bind m' k' s.
Proof. intros Hm Hk. unfold bind. rewrite Hm. by destruct (m' s). Qed.

(** The recursive enumeration visits the pre-order list. *)
Lemma CacheView_forEachCacheView_preorder {S} (visitor : CacheView -> M S bool)
    (v : CacheView) :
  forall s, CacheView_forEachCacheView v visitor s = forEach (preorder v) visitor s.
Proof.
  induction v as [tag cs IH] using CacheView_ind. intros s.
  cbn [CacheView_forEachCacheView preorder forEach view_children].
  apply bind_eq; [reflexivity |]. intros [|] s1; [| reflexivity].
  clear s. revert s1. induction IH as [| c cs Hc _ IHcs]; intros s; [reflexivity |].
  rewrite forEach_app. apply bind_eq; [apply Hc |].
  intros [|] s1; [apply IHcs | reflexivity].
Qed.

Lemma forEach_heap_stable {X} (visitor : X -> M World bool) (xs : list X) :
  heap_stable visitor -> forall w, heap (state_of (forEach xs visitor w)) = heap w.
Proof.
  intros Hs. induction xs as [| x xs IH]; intros w; [reflexivity |].
  cbn [forEach]. unfold bind. specialize (Hs x w).
  destruct (visitor x w) as [[|] w1 | e w1 | f w1]; cbn in *; try done.
  by rewrite IH.
Qed.

Section Traversal.
Context {qt : QtPlatform} (visitor : IterateInfo -> M World bool).

(** One run of the inner closure. *)
Lemma view_step (v : CacheView) (info : IterateInfo) (w : World) :
  forEachCacheView_view visitor v (info, w) =
    match visitor (mkIterateInfo (cacheItem info) (cacheItemIndex info) (Some v)
                                 (cacheViewIndex info)) w with
    | Ok r w1 =>
        Ok r (mkIterateInfo (cacheItem info) (cacheItemIndex info) (Some v)
                            (int_add (cacheViewIndex info) 1), w1)
    | Raised e w1 =>
        Raised e (mkIterateInfo (cacheItem info) (cacheItemIndex info) (Some v)
                                (cacheViewIndex info), w1)
    | Fatal f w1 =>
        Fatal f (mkIterateInfo (cacheItem info) (cacheItemIndex info) (Some v)
                               (cacheViewIndex info), w1)
    end.
Proof.
  unfold forEachCacheView_view, bind, modify_local, modify, get_local, gets, lift_world.
  cbn [get_world put_world HasWorld_local fst snd].
  by destruct (visitor _ w).
Qed.

(** The inner closure over the views of one item. *)
Lemma view_loop (vs : list CacheView) :
  forall (f : nat -> CacheView -> IterateInfo) (info : IterateInfo) (w : World) (j : nat),
    cacheViewIndex info = Z.of_nat j ->
    (Z.of_nat (j + length vs) <= int_max)%Z ->
    (forall k v, f k v = mkIterateInfo (cacheItem info) (cacheItemIndex info) (Some v)
                                       (Z.of_nat (j + k))) ->
    drop_local (forEach vs (forEachCacheView_view visitor) (info, w)) =
      forEach (imap f vs) visitor w /\
    (forall b info' w',
        forEach vs (forEachCacheView_view visitor) (info, w) = Ok b (info', w') ->
        cacheItemIndex info' = cacheItemIndex info).
Proof.
  induction vs as [| v vs IH]; intros f info w j Hj Hfit Hf.
  - split; [reflexivity |]. by intros b info' w' [= _ <- _].
  - cbn [forEach imap length] in *. unfold bind. rewrite view_step, Hf, Nat.add_0_r, <- Hj.
    destruct (visitor _ w) as [[|] w1 | e w1 | fa w1]; cbn [ret drop_local snd].
    + assert (Hidx : int_add (cacheViewIndex info) 1 = Z.of_nat (S j)).
      { rewrite Hj. unfold int_add. rewrite int_wrap_small; [lia | int_range]. }
      destruct (IH (f ∘ S)
                  (mkIterateInfo (cacheItem info) (cacheItemIndex info) (Some v)
                                 (int_add (cacheViewIndex info) 1)) w1 (S j))
        as [IH1 IH2].
      * exact Hidx.
      * lia.
      * intros k v'. cbn. rewrite Hf. do 2 f_equal. lia.
      * split; [exact IH1 |]. intros b info' w' H. by rewrite (IH2 _ _ _ H).
    + split; [reflexivity |]. by intros b info' w' [= _ <- _].
    + split; [reflexivity | discriminate].
    + split; [reflexivity | discriminate].
Qed.

(** One run of the outer closure on a live item. *)
Lemma item_step (a : nat) (it : CacheItem) (info : IterateInfo) (w : World) :
  heap w !! a = Some it ->
  forEachCacheView_item visitor a (info, w) =
    match
      match item_cacheView it with
      | Some root => forEach (preorder root) (forEachCacheView_view visitor)
      | None => ret true
      end (mkIterateInfo (Some a) (cacheItemIndex info) (cacheView info) 0, w)
    with
    | Ok r s =>
        Ok r (mkIterateInfo (cacheItem (fst s)) (int_add (cacheItemIndex (fst s)) 1)
                            (cacheView (fst s)) (cacheViewIndex (fst s)), snd s)
    | Raised e s => Raised e s
    | Fatal f s => Fatal f s
    end.
Proof.
  intros Hit.
  unfold forEachCacheView_item, bind, modify_local, modify, lift_world, CacheItem_cacheView,
    bind, CacheItem_load.
  cbn [get_world put_world HasWorld_local fst snd]. rewrite Hit. cbn [ret fst snd].
  destruct (item_cacheView it) as [root |]; [| reflexivity].
  rewrite CacheView_forEachCacheView_preorder. by destruct (forEach _ _ _).
Qed.

(** The outer closure over the cached items. *)
Lemma item_loop (h : list CacheItem) (items : list nat) :
  heap_stable visitor ->
  forall (g : nat -> nat -> list IterateInfo) (info : IterateInfo) (w : World) (i : nat),
    heap w = h ->
    Forall (live h) items ->
    Forall (fun a => (Z.of_nat (length (views_of h a)) <= int_max)%Z) items ->
    cacheItemIndex info = Z.of_nat i ->
    (Z.of_nat (i + length items) <= int_max)%Z ->
    (forall k a, g k a = item_calls h (i + k) a) ->
    drop_local (forEach items (forEachCacheView_item visitor) (info, w)) =
      forEach (mjoin (imap g items)) visitor w.
Proof.
  intros Hstable.
  induction items as [| a items IH]; intros g info w i Hh Hlive Hviews Hi Hfit Hg;
    [reflexivity |].
  apply Forall_cons in Hlive as [[it Hit] Hlive].
  apply Forall_cons in Hviews as [Hva Hviews].
  cbn [forEach imap mjoin list_join length] in *. rewrite forEach_app.
  unfold bind. rewrite (item_step a it) by congruence.
  rewrite Hg, Nat.add_0_r. unfold item_calls at 1, views_of at 1. unfold views_of in Hva.
  rewrite Hit in *.
  assert (Hnext : int_add (cacheItemIndex info) 1 = Z.of_nat (S i)).
  { rewrite Hi. unfold int_add. rewrite int_wrap_small; [lia | clear -Hfit; int_range]. }
  assert (Hrest : forall info' w',
             heap w' = h -> cacheItemIndex info' = Z.of_nat (S i) ->
             drop_local (forEach items (forEachCacheView_item visitor) (info', w')) =
               forEach (mjoin (imap (g ∘ S) items)) visitor w').
  { intros info' w' Hh' Hi'. apply (IH (g ∘ S) info' w' (S i)); try done.
    - lia.
    - intros k b. cbn. rewrite Hg. f_equal. lia. }
  destruct (item_cacheView it) as [root |].
  - destruct (view_loop (preorder root)
                (fun j v => mkIterateInfo (Some a) (Z.of_nat i) (Some v) (Z.of_nat j))
                (mkIterateInfo (Some a) (cacheItemIndex info) (cacheView info) 0) w 0)
      as [Hcalls Hkeep].
    { reflexivity. }
    { exact Hva. }
    { intros k v. cbn. by rewrite Hi. }
    rewrite <- Hcalls.
    pose proof (forEach_heap_stable visitor
                  (imap (fun j v => mkIterateInfo (Some a) (Z.of_nat i) (Some v) (Z.of_nat j))
                        (preorder root)) Hstable w) as Hheap.
    rewrite <- Hcalls in Hheap.
    destruct (forEach (preorder root) (forEachCacheView_view visitor) _)
      as [[|] [info' w'] | e [info' w'] | fa [info' w']] eqn:E;
      cbn [drop_local fst snd state_of ret] in *; try reflexivity.
    apply Hrest; [congruence |]. cbn.
    rewrite (Hkeep _ _ _ eq_refl). exact Hnext.
  - cbn [ret fst snd imap forEach drop_local]. apply Hrest; [done |]. exact Hnext.
Qed.

(** C8: a traversal by [forEachCacheView] is the sequence of visitor calls
    [expected_calls] lists, run in order and cut at the first call that
    answers false: [cacheItemIndex] is the position of the item in the cache
    (items without a view tree count), [cacheViewIndex] the position of the
    view in the pre-order of the item's tree, starting at 0 in every item;
    when a call answers false no later call is made and the traversal
    returns false. *)
Theorem forEachCacheView_indices (w : World) :
  cache_wf w ->
  counts_fit w ->
  heap_stable visitor ->
  forEachCacheView visitor w = forEach (expected_calls w) visitor w /\
  (forall i a j v,
      cacheItems w !! i = Some a ->
      views_of (heap w) a !! j = Some v ->
      mkIterateInfo (Some a) (Z.of_nat i) (Some v) (Z.of_nat j) ∈ expected_calls w) /\
  (forall x, x ∈ expected_calls w ->
      exists i a j v,
        cacheItems w !! i = Some a /\ views_of (heap w) a !! j = Some v /\
        x = mkIterateInfo (Some a) (Z.of_nat i) (Some v) (Z.of_nat j)) /\
  (forall before x after w1 w2,
      expected_calls w = before ++ x :: after ->
      forEach before visitor w = Ok true w1 ->
      visitor x w1 = Ok false w2 ->
      forEachCacheView visitor w = Ok false w2).
Proof.
  intros Hwf [Hitems Hviews] Hstable.
  assert (Hmain : forEachCacheView visitor w = forEach (expected_calls w) visitor w).
  { unfold forEachCacheView, bind at 1. rewrite Q_ASSERT_holds.
    unfold with_local, forEachCacheItem, bind at 1. rewrite Q_ASSERT_holds.
    unfold forEachCacheItemImpl. cbn [get_world HasWorld_local snd].
    apply (item_loop (heap w) (cacheItems w) Hstable _ IterateInfo_new w 0);
      try done. }
  repeat apply conj.
  - exact Hmain.
  - intros i a j v Hi Hj. unfold expected_calls. apply list_elem_of_join.
    exists (item_calls (heap w) i a). split.
    + unfold item_calls.
      apply (elem_of_lookup_imap_2
               (fun j v => mkIterateInfo (Some a) (Z.of_nat i) (Some v) (Z.of_nat j)) _ _ _ Hj).
    + by apply (elem_of_lookup_imap_2 (item_calls (heap w))).
  - intros x Hx. unfold expected_calls in Hx.
    apply list_elem_of_join in Hx as (l & Hxl & Hl).
    apply elem_of_lookup_imap_1 in Hl as (i & a & -> & Hi).
    apply elem_of_lookup_imap_1 in Hxl as (j & v & -> & Hj).
    by exists i, a, j, v.
  - intros before x after w1 w2 Hsplit Hbefore Hx.
    rewrite Hmain, Hsplit, forEach_app. unfold bind. rewrite Hbefore.
    cbn [forEach]. unfold bind. by rewrite Hx.
Qed.

End Traversal.

Lemma demo_world_counts_fit : counts_fit demo_world.
Proof.
  split; [unfold int_max; cbn; lia |].
  repeat constructor; unfold int_max; cbn; lia.
Qed.

Lemma stop_at_second_view_stable : heap_stable stop_at_second_view.
Proof. intros info w. reflexivity. Qed.

Lemma forEachCacheView_indices_witness :
  @forEachCacheView qt5_debug stop_at_second_view demo_world =
    forEach (expected_calls demo_world) stop_at_second_view demo_world /\
  expected_calls demo_world =
    [ mkIterateInfo (Some 0) 0 (Some (ViewNode 0 [])) 0;
      mkIterateInfo (Some 2) 2 (Some (ViewNode 1 [ViewNode 2 []; ViewNode 3 []])) 0;
      mkIterateInfo (Some 2) 2 (Some (ViewNode 2 [])) 1;
      mkIterateInfo (Some 2) 2 (Some (ViewNode 3 [])) 2 ] /\
  @forEachCacheView qt5_debug stop_at_second_view demo_world = Ok false demo_world.
Proof.
  destruct (@forEachCacheView_indices qt5_debug stop_at_second_view demo_world
              demo_world_wf demo_world_counts_fit stop_at_second_view_stable)
    as (Hcalls & _ & _ & Hstop).
  split; [exact Hcalls |]. split; [reflexivity |].
  apply (Hstop
           [ mkIterateInfo (Some 0) 0 (Some (ViewNode 0 [])) 0;
             mkIterateInfo (Some 2) 2 (Some (ViewNode 1 [ViewNode 2 []; ViewNode 3 []])) 0 ]
           (mkIterateInfo (Some 2) 2 (Some (ViewNode 2 [])) 1)
           [ mkIterateInfo (Some 2) 2 (Some (ViewNode 3 [])) 2 ]
           demo_world demo_world); reflexivity.
Defined.

(** ** The constructor and the release build *)

(** A new [CacheSpace] has an empty window, no offset, no pending deltas,
    an invalid cache, a free guard and a factory for its mask. *)
Lemma CacheSpace_new_state (qt : QtPlatform) (space : nat) (mask : Z) :
  exists w,
    CacheSpace_new space mask = Ok tt w /\
    m_cacheItemsFactory w = Some (mkFactory mask 0) /\
    m_window w = mkQRect 0 0 (-1) (-1) /\
    is_QPoint (m_scrollDelta w) /\ is_QSize (m_sizeDelta w) /\
    m_itemsCacheInvalid w = true /\ m_cacheIsInUse w = false /\
    cache_wf w /\ trace w = [].
Proof.
  eexists. split; [reflexivity |]. cbn.
  repeat split; try int_range.
  constructor.
Qed.

(** With assertions compiled out the guard detects nothing. *)
Lemma release_build_guard_is_silent :
  @clear qt5_release canonical_bits demo_world_in_use =
    Ok tt (set_trace [EvCacheChanged 16]
            (set_m_itemsCacheInvalid true (set_cacheItems [] demo_world_in_use))).
Proof.
  apply (@clear_free qt5_release canonical_bits demo_world_in_use). left. reflexivity.
Qed.

(** ** Wrapped arithmetic by decomposition *)

Lemma int_wrap_decomp (z : Z) :
  exists k : Z, int_wrap z = (z + k * 2 ^ 32)%Z /\ (- 2 ^ 31 <= z + k * 2 ^ 32 < 2 ^ 31)%Z.
Proof.
  exists (- ((z + 2 ^ 31) / 2 ^ 32))%Z.
  unfold int_wrap.
  pose proof (Z.div_mod (z + 2 ^ 31) (2 ^ 32) ltac:(lia)) as Hdm.
  pose proof (Z.mod_pos_bound (z + 2 ^ 31) (2 ^ 32) ltac:(lia)) as Hb.
  lia.
Qed.

(** Replaces every [int_wrap x] by [x + k * 2 ^ 32] with its range, inner
    ones first. *)
Ltac int_wrap_step x :=
  lazymatch x with
  | context [int_wrap _] => fail
  | _ =>
      let k := fresh "k" in
      let E := fresh "E" in
      let R := fresh "R" in
      destruct (int_wrap_decomp x) as (k & E & R);
      rewrite E in *; clear E
  end.

Ltac int_wrap_elim :=
  unfold QPoint_add, QPoint_sub, QSize_add, QSize_sub, int_add, int_sub in *;
  cbn [xp yp wd ht] in *;
  repeat match goal with
  | |- context [int_wrap ?x] => int_wrap_step x
  | H : context [int_wrap ?x] |- _ => int_wrap_step x
  end.

Ltac int_wrap_lia := int_wrap_elim; lia.

(** ** The mapping and its origin *)

(** [space2Window] adds [originPos] and [window2Space] subtracts it; both
    are translations, so displacements between points survive the mapping. *)
Theorem mapping_translates_by_originPos (w : World) (p q : QPoint) :
  space2Window w p = QPoint_add p (originPos w) /\
  window2Space w p = QPoint_sub p (originPos w) /\
  QPoint_sub (window2Space w p) (window2Space w q) = QPoint_sub p q /\
  QPoint_sub (space2Window w p) (space2Window w q) = QPoint_sub p q.
Proof.
  unfold space2Window, window2Space, originPos, QRect_topLeft.
  repeat split; unfold QPoint_add, QPoint_sub; cbn [xp yp]; f_equal; int_wrap_lia.
Qed.

(** ** The window, the scroll offset and their pending deltas *)

Lemma keeps_bind {X A B} (f : World -> X) (m : M World A) (k : A -> M World B) :
  keeps f m -> (forall a, keeps f (k a)) -> keeps f (bind m k).
Proof.
  intros Hm Hk w. unfold bind. specialize (Hm w).
  destruct (m w) as [a w1 | e w1 | fa w1]; cbn in *; [| done..].
  by rewrite Hk.
Qed.

Section Deltas.
Context {qt : QtPlatform} {bits : ChangeReasonBits}.

Lemma setWindow_same (w : World) : setWindow (m_window w) w = Ok tt w.
Proof. unfold setWindow, bind, gets. by rewrite bool_decide_eq_true_2. Qed.

Lemma setWindow_changes (w : World) (r : QRect) :
  r <> m_window w -> guard_free w ->
  setWindow r w =
    Ok tt
      (set_trace (trace w ++ [EvCacheChanged ChangeReasonCacheContent])
        (set_m_itemsCacheInvalid true
          (set_m_window (QRect_normalized r)
            (set_m_sizeDelta
               (QSize_add (m_sizeDelta w)
                  (QSize_sub (QRect_size (QRect_normalized r)) (QRect_size (m_window w))))
               (set_m_scrollDelta
                  (QPoint_add (m_scrollDelta w)
                     (QPoint_sub (QRect_topLeft (QRect_normalized r))
                                 (QRect_topLeft (m_window w))))
                  w))))).
Proof.
  intros Hne Hg. unfold setWindow, bind, gets.
  rewrite bool_decide_eq_false_2 by congruence.
  unfold modify. by rewrite invalidateItemsCache_free.
Qed.



(** [setWindow] in full: the stored window is compared with the raw
    argument; when they differ the normalized argument is stored, the move
    of the top-left corner is added to [scrollDelta], the change of size to
    [sizeDelta], the cache is marked invalid and [cacheChanged(CacheContent)]
    is emitted once. *)
Theorem setWindow_spec (w : World) (r : QRect) :
  (r = m_window w -> setWindow r w = Ok tt w) /\
  (r <> m_window w -> guard_free w ->
   setWindow r w =
     Ok tt
       (set_trace (trace w ++ [EvCacheChanged ChangeReasonCacheContent])
         (set_m_itemsCacheInvalid true
           (set_m_window (QRect_normalized r)
             (set_m_sizeDelta
                (QSize_add (m_sizeDelta w)
                   (QSize_sub (QRect_size (QRect_normalized r)) (QRect_size (m_window w))))
                (set_m_scrollDelta
                   (QPoint_add (m_scrollDelta w)
                      (QPoint_sub (QRect_topLeft (QRect_normalized r))
                                  (QRect_topLeft (m_window w))))
                   w)))))).
Proof.
  split.
  - intros ->. apply setWindow_same.
  - apply setWindow_changes.
Qed.

(** Calling [setWindow] again with the same rectangle is a no-op only if
    the rectangle is its own normal form; otherwise every repetition emits
    [cacheChanged(CacheContent)] again and changes nothing else. *)
Theorem setWindow_repeated (w : World) (r : QRect) :
  r <> m_window w ->
  guard_free w ->
  exists w1,
    setWindow r w = Ok tt w1 /\
    m_window w1 = QRect_normalized r /\
    (QRect_normalized r = r -> setWindow r w1 = Ok tt w1) /\
    (QRect_normalized r <> r ->
     setWindow r w1 =
       Ok tt (set_trace (trace w1 ++ [EvCacheChanged ChangeReasonCacheContent]) w1)).
Proof.
  intros Hne Hg.
  pose proof (setWindow_changes w r Hne Hg) as H1.
  eexists. split; [exact H1 |]. split; [reflexivity |].
  match goal with |- context [setWindow r ?x] => remember x as w1 eqn:Ew1 end.
  assert (Hwin : m_window w1 = QRect_normalized r) by (by rewrite Ew1).
  assert (Hg1 : guard_free w1) by (by rewrite Ew1).
  assert (Hd : is_QPoint (m_scrollDelta w1))
    by (rewrite Ew1; split; apply int_wrap_is_int).
  assert (Hs : is_QSize (m_sizeDelta w1))
    by (rewrite Ew1; split; apply int_wrap_is_int).
  assert (Hinv : m_itemsCacheInvalid w1 = true) by (by rewrite Ew1).
  clear Ew1 H1. split.
  - intros Hn. rewrite Hn in Hwin. rewrite <- Hwin. apply setWindow_same.
  - intros Hn.
    rewrite (setWindow_changes w1 r) by (try congruence; exact Hg1).
    rewrite <- Hwin, QPoint_sub_diag, QSize_sub_diag.
    rewrite QPoint_add_0_r, QSize_add_0_r by assumption.
    destruct w1. cbn [m_itemsCacheInvalid] in Hinv. by rewrite Hinv.
Qed.

End Deltas.

Lemma preserves_bind {A B} (P : World -> Prop) (m : M World A) (k : A -> M World B) :
  preserves P m -> (forall a, preserves P (k a)) -> preserves P (bind m k).
Proof.
  intros Hm Hk w Hw. unfold bind. specialize (Hm w Hw).
  destruct (m w) as [a w1 | e w1 | fa w1]; cbn in *; [| done..].
  by apply Hk.
Qed.

Section DeltaInvariants.
Context {qt : QtPlatform} {bits : ChangeReasonBits}.

(** Unfolds a setter down to the states it can end in. *)
Ltac setter_cases w :=
  intros w;
  unfold setWindow, setScrollOffset, invalidateItemsCache, Q_ASSERT, emit, bind, gets,
    modify;
  repeat case_bool_decide;
  cbn [m_cacheIsInUse set_m_window set_m_sizeDelta set_m_scrollDelta set_m_scrollOffset];
  destruct (m_cacheIsInUse w); try destruct qt_debug;
  cbn [state_of negb m_window m_scrollOffset m_scrollDelta m_sizeDelta m_cacheIsInUse
       trace set_trace set_m_itemsCacheInvalid set_m_window set_m_sizeDelta
       set_m_scrollDelta set_m_scrollOffset].

Lemma setWindow_keeps_origin (r : QRect) : keeps validated_origin (setWindow r).
Proof.
  setter_cases w; try reflexivity;
    unfold validated_origin, originPos, QRect_topLeft;
    cbn [m_window m_scrollOffset m_scrollDelta set_trace set_m_itemsCacheInvalid
         set_m_window set_m_sizeDelta set_m_scrollDelta];
    unfold QPoint_sub, QPoint_add; cbn [xp yp]; f_equal; int_wrap_lia.
Qed.

Lemma setScrollOffset_keeps_origin (q : QPoint) : keeps validated_origin (setScrollOffset q).
Proof.
  setter_cases w; try reflexivity;
    unfold validated_origin, originPos, QRect_topLeft;
    cbn [m_window m_scrollOffset m_scrollDelta set_trace set_m_itemsCacheInvalid
         set_m_scrollOffset set_m_scrollDelta];
    unfold QPoint_sub, QPoint_add; cbn [xp yp]; f_equal; int_wrap_lia.
Qed.

Lemma setWindow_keeps_size (r : QRect) : keeps validated_size (setWindow r).
Proof.
  setter_cases w; try reflexivity;
    unfold validated_size;
    cbn [m_window m_sizeDelta set_trace set_m_itemsCacheInvalid
         set_m_window set_m_sizeDelta set_m_scrollDelta];
    unfold QSize_sub, QSize_add; cbn [wd ht]; f_equal; int_wrap_lia.
Qed.

Lemma setScrollOffset_keeps_size (q : QPoint) : keeps validated_size (setScrollOffset q).
Proof. setter_cases w; reflexivity. Qed.

Lemma setWindow_scrollDelta_int (r : QRect) : preserves scrollDelta_is_int (setWindow r).
Proof.
  setter_cases w; intros Hw; try exact Hw; split; apply int_wrap_is_int.
Qed.

Lemma setWindow_sizeDelta_int (r : QRect) : preserves sizeDelta_is_int (setWindow r).
Proof.
  setter_cases w; intros Hw; try exact Hw; split; apply int_wrap_is_int.
Qed.

Lemma setScrollOffset_scrollDelta_int (q : QPoint) :
  preserves scrollDelta_is_int (setScrollOffset q).
Proof.
  setter_cases w; intros Hw; try exact Hw; split; apply int_wrap_is_int.
Qed.

Lemma setScrollOffset_sizeDelta_int (q : QPoint) :
  preserves sizeDelta_is_int (setScrollOffset q).
Proof. setter_cases w; intros Hw; exact Hw. Qed.

Lemma run_setter_keeps_origin (c : SetterCall) : keeps validated_origin (run_setter c).
Proof.
  destruct c; cbn [run_setter]; unfold set;
    auto using keeps_bind, setWindow_keeps_origin, setScrollOffset_keeps_origin.
Qed.

Lemma run_setter_keeps_size (c : SetterCall) : keeps validated_size (run_setter c).
Proof.
  destruct c; cbn [run_setter]; unfold set;
    auto using keeps_bind, setWindow_keeps_size, setScrollOffset_keeps_size.
Qed.

Lemma run_setter_scrollDelta_int (c : SetterCall) :
  preserves scrollDelta_is_int (run_setter c).
Proof.
  destruct c; cbn [run_setter]; unfold set;
    auto using preserves_bind, setWindow_scrollDelta_int, setScrollOffset_scrollDelta_int.
Qed.

Lemma run_setter_sizeDelta_int (c : SetterCall) :
  preserves sizeDelta_is_int (run_setter c).
Proof.
  destruct c; cbn [run_setter]; unfold set;
    auto using preserves_bind, setWindow_sizeDelta_int, setScrollOffset_sizeDelta_int.
Qed.

Lemma run_setters_keeps_origin (cs : list SetterCall) : keeps validated_origin (run_setters cs).
Proof.
  induction cs as [| c cs IH]; cbn [run_setters]; [done |].
  apply keeps_bind; [apply run_setter_keeps_origin | done].
Qed.

Lemma run_setters_keeps_size (cs : list SetterCall) : keeps validated_size (run_setters cs).
Proof.
  induction cs as [| c cs IH]; cbn [run_setters]; [done |].
  apply keeps_bind; [apply run_setter_keeps_size | done].
Qed.

Lemma run_setters_scrollDelta_int (cs : list SetterCall) :
  preserves scrollDelta_is_int (run_setters cs).
Proof.
  induction cs as [| c cs IH]; cbn [run_setters]; [by intros w |].
  apply preserves_bind; [apply run_setter_scrollDelta_int | done].
Qed.

Lemma run_setters_sizeDelta_int (cs : list SetterCall) :
  preserves sizeDelta_is_int (run_setters cs).
Proof.
  induction cs as [| c cs IH]; cbn [run_setters]; [by intros w |].
  apply preserves_bind; [apply run_setter_sizeDelta_int | done].
Qed.

(** Over any run of [setWindow], [setScrollOffset] and [set] calls, however
    it ends, [scrollDelta] grows by exactly the displacement of the mapping
    origin: the origin less the pending delta stays what it was, and every
    space point has moved in the window by the delta gathered since. *)
Theorem scrollDelta_is_origin_displacement (cs : list SetterCall) (w : World) :
  validated_origin (state_of (run_setters cs w)) = validated_origin w /\
  (forall s : QPoint,
     space2Window (state_of (run_setters cs w)) s =
       QPoint_add (space2Window w s)
         (QPoint_sub (m_scrollDelta (state_of (run_setters cs w))) (m_scrollDelta w))).
Proof.
  pose proof (run_setters_keeps_origin cs w) as H.
  split; [exact H |]. intros s.
  unfold validated_origin, originPos, space2Window, QRect_topLeft in *.
  unfold QPoint_sub, QPoint_add in *. cbn [xp yp] in *.
  injection H as Hx Hy. f_equal; int_wrap_lia.
Qed.

(** Over any such run [sizeDelta] grows by exactly the change of the window
    size. *)
Theorem sizeDelta_is_size_change (cs : list SetterCall) (w : World) :
  validated_size (state_of (run_setters cs w)) = validated_size w /\
  (is_QSize (m_sizeDelta w) ->
   m_sizeDelta (state_of (run_setters cs w)) =
     QSize_add (m_sizeDelta w)
       (QSize_sub (QRect_size (m_window (state_of (run_setters cs w))))
                  (QRect_size (m_window w)))).
Proof.
  pose proof (run_setters_keeps_size cs w) as H.
  split; [exact H |]. intros Hs.
  pose proof (run_setters_sizeDelta_int cs w Hs) as Hs'.
  unfold validated_size, sizeDelta_is_int in *.
  destruct (m_sizeDelta (state_of (run_setters cs w))) as [a b].
  destruct (m_sizeDelta w) as [a0 b0].
  destruct (QRect_size (m_window (state_of (run_setters cs w)))) as [c d].
  destruct (QRect_size (m_window w)) as [c0 d0].
  unfold QSize_sub, QSize_add, is_QSize, is_int, int_min, int_max in *.
  cbn [wd ht] in *. injection H as Hx Hy. f_equal; int_wrap_lia.
Qed.

(** When such a run ends with the origin where it began (scrolled away and
    back, say), the pending [scrollDelta] is what it was before the run. *)
Theorem scrollDelta_cancels_when_origin_returns (cs : list SetterCall) (w : World) :
  is_QPoint (m_scrollDelta w) ->
  originPos (state_of (run_setters cs w)) = originPos w ->
  m_scrollDelta (state_of (run_setters cs w)) = m_scrollDelta w.
Proof.
  intros Hd Ho.
  pose proof (run_setters_keeps_origin cs w) as H.
  pose proof (run_setters_scrollDelta_int cs w Hd) as Hd'.
  unfold validated_origin, scrollDelta_is_int in *. rewrite Ho in H.
  destruct (m_scrollDelta (state_of (run_setters cs w))) as [a b].
  destruct (m_scrollDelta w) as [a0 b0].
  destruct (originPos w) as [ox oy].
  unfold QPoint_sub, is_QPoint, is_int, int_min, int_max in *.
  cbn [xp yp] in *. injection H as Hx Hy. f_equal; int_wrap_lia.
Qed.

(** In a debug build, with the cache in use, [setScrollOffset] and
    [setWindow] fail the assertion only after they have stored the new
    member values: the offset or window and the deltas are already changed,
    the cache is not marked invalid and no signal is emitted. *)
Theorem setters_store_before_assertion (w : World) :
  qt_debug = true ->
  m_cacheIsInUse w = true ->
  (forall q, q <> m_scrollOffset w ->
     setScrollOffset q w =
       Fatal (AssertFailed "!m_cacheIsInUse")
         (set_m_scrollOffset q
           (set_m_scrollDelta
              (QPoint_add (m_scrollDelta w) (QPoint_sub (m_scrollOffset w) q)) w))) /\
  (forall r, r <> m_window w ->
     setWindow r w =
       Fatal (AssertFailed "!m_cacheIsInUse")
         (set_m_window (QRect_normalized r)
           (set_m_sizeDelta
              (QSize_add (m_sizeDelta w)
                 (QSize_sub (QRect_size (QRect_normalized r)) (QRect_size (m_window w))))
              (set_m_scrollDelta
                 (QPoint_add (m_scrollDelta w)
                    (QPoint_sub (QRect_topLeft (QRect_normalized r))
                                (QRect_topLeft (m_window w))))
                 w)))).
Proof.
  intros Hd Hu. split.
  - intros q Hne. unfold setScrollOffset, bind, gets.
    rewrite bool_decide_eq_false_2 by congruence.
    unfold modify. by rewrite invalidateItemsCache_in_use.
  - intros r Hne. unfold setWindow, bind, gets.
    rewrite bool_decide_eq_false_2 by congruence.
    unfold modify. by rewrite invalidateItemsCache_in_use.
Qed.


End DeltaInvariants.

(** ** The draw pipeline and the scoped guard *)

Lemma forEach_recording (f : nat -> Event) (items : list nat) :
  forall w,
    forEach items (fun a => window <- gets m_window ;; emit (f a) ;; ret true) w =
      Ok true (set_trace (trace w ++ map f items) w).
Proof.
  induction items as [| a items IH]; intros w.
  - cbn. unfold ret. rewrite app_nil_r. by destruct w.
  - cbn [forEach map]. unfold bind at 1, bind at 1, gets at 1, bind at 1, emit at 1,
      modify at 1, ret at 1.
    rewrite IH. cbn [trace set_trace]. rewrite <- app_assoc. by destruct w.
Qed.

Section DrawOrder.
Context {qt : QtPlatform}.

Lemma validateItemsCache_recording (w : World) :
  exists w1,
    @validateItemsCache recording_items w = Ok tt w1 /\
    cacheItems w1 = cacheItems w /\ m_window w1 = m_window w /\ trace w1 = trace w /\
    heap w1 = heap w.
Proof.
  unfold validateItemsCache, bind, gets.
  destruct (m_itemsCacheInvalid w); cbn; eexists; split; try reflexivity; done.
Qed.

(** With items that only record what is asked of them, [draw] returns and
    has, in this order: validated the view of every cached item, emitted
    [preDraw] once, saved the painter, clipped it to the window, painted
    every cached item in cache order and restored the painter; the guard is
    back to its value and nothing else has changed since the validation. *)
Theorem draw_pipeline_in_order (painter : QPainter) (ctx : GuiContext) (w : World) :
  exists w1,
    @validateItemsCache recording_items w = Ok tt w1 /\
    @draw qt recording_items painter ctx w =
      Ok tt (set_trace (trace w ++ draw_events painter w) w1).
Proof.
  destruct (validateItemsCache_recording w) as (w1 & Hv & Hitems & Hwin & Htr & _).
  exists w1. split; [exact Hv |].
  unfold draw, bind at 1. rewrite Hv. unfold auto_value.
  unfold bind at 1, forEachCacheItem at 1, bind at 1. rewrite Q_ASSERT_holds.
  unfold forEachCacheItemImpl. cbn [get_world HasWorld_World].
  cbn [CacheItem_validateCacheView CacheItem_draw recording_items].
  rewrite (forEach_recording EvItemValidateCacheView).
  unfold bind at 1, emit at 1, modify at 1.
  unfold bind at 1, emit at 1, modify at 1.
  unfold bind at 1, gets at 1.
  unfold bind at 1, emit at 1, modify at 1.
  unfold bind at 1, forEachCacheItem at 1, bind at 1. rewrite Q_ASSERT_holds.
  unfold forEachCacheItemImpl. cbn [get_world HasWorld_World].
  rewrite (forEach_recording (fun a => EvItemDraw a painter)).
  unfold emit, modify. f_equal.
  unfold draw_events. rewrite <- Hitems, <- Hwin, <- Htr.
  destruct w1. cbn. f_equal. rewrite <- !app_assoc. reflexivity.
Qed.

End DrawOrder.

Section Scoped.
Context {qt : QtPlatform} {ext : Collaborators} {dispatch : Dispatch}.

Lemma validateItemsCache_returns :
  returns_normally validateItemsCacheImpl -> returns_normally validateItemsCache.
Proof.
  intros Hv w. unfold validateItemsCache, bind, gets.
  destruct (m_itemsCacheInvalid w); cbn; [apply Hv | reflexivity].
Qed.

(** A hit test that finds no item: when the position lookup of the subclass
    answers null, [tryActivateControllers] returns the controllers it was
    given, untouched, and [tooltipByPoint] returns false with the tooltip
    record untouched; no item code is consulted. *)
Theorem hit_test_miss (context : ControllerContext) (controllers : list nat)
    (info : nat) (w : World) :
  returns_normally validateItemsCacheImpl ->
  (forall s, exists s', cacheItemByPositionImpl (point context) s = Ok None s') ->
  (exists w', tryActivateControllers context controllers w = Ok controllers w') /\
  (exists w', tooltipByPoint (point context) info w = Ok (false, info) w').
Proof.
  intros Hv Hmiss.
  pose proof (validateItemsCache_returns Hv) as Hr.
  pose proof (Hr w) as H0.
  destruct (validateItemsCache w) as [[] w1 | |] eqn:E0; [| done..].
  pose proof (Hr (set_m_cacheIsInUse true w1)) as H1.
  destruct (validateItemsCache (set_m_cacheIsInUse true w1)) as [[] w2 | |] eqn:E1;
    [| done..].
  destruct (Hmiss w2) as [w3 E2].
  split.
  - unfold tryActivateControllers, bind at 1. rewrite E0.
    unfold auto_value, bind at 1, cacheItemByPosition, bind at 1. rewrite E1, E2.
    cbn. eauto.
  - unfold tooltipByPoint, bind at 1. rewrite E0.
    unfold auto_value, bind at 1, cacheItemByPosition, bind at 1. rewrite E1, E2.
    cbn. eauto.
Qed.

End Scoped.

Section HitTestGuard.
Context {qt : QtPlatform} {bits : ChangeReasonBits} {ext : Collaborators}.


End HitTestGuard.

(** ** Rebuilding, clearing and change events *)

Lemma reschema_heap_once (f : CacheItemFactory) (items : list nat) :
  forall (h : list CacheItem) (a : nat),
    NoDup items -> a ∈ items ->
    reschema_heap f items h !! a = reschema f <$> h !! a.
Proof.
  induction items as [| a0 items IH]; intros h a Hnd Hin; cbn [reschema_heap].
  - by apply elem_of_nil in Hin.
  - apply NoDup_cons in Hnd as [Hfresh Hnd].
    destruct (decide (a = a0)) as [-> | Hne].
    + rewrite reschema_heap_other by done. apply list_lookup_alter_eq.
    + apply elem_of_cons in Hin as [-> | Hin]; [done |].
      rewrite IH by done. by rewrite list_lookup_alter_ne.
Qed.

Lemma reschema_heap_length (f : CacheItemFactory) (items : list nat) :
  forall h : list CacheItem, length (reschema_heap f items h) = length h.
Proof.
  induction items as [| a items IH]; intros h; cbn [reschema_heap]; [done |].
  by rewrite IH, length_alter.
Qed.

Lemma keeps_forEach {X Y} (f : World -> Y) (xs : list X) (visitor : X -> M World bool) :
  (forall x, keeps f (visitor x)) -> keeps f (forEach xs visitor).
Proof.
  intros Hv. induction xs as [| x xs IH]; cbn [forEach]; [done |].
  apply keeps_bind; [apply Hv |]. by intros [|].
Qed.

Section Rebuild.
Context {qt : QtPlatform} {bits : ChangeReasonBits}.

(** [updateCacheItemsFactory] re-schemas each cached item exactly once when
    no pointer is stored twice: the item keeps its identity and geometry,
    loses its view, is wired to the new factory and its schema version
    grows by one.  The cache holds the same pointers afterwards, all live,
    and the space has made one more factory. *)
Theorem updateCacheItemsFactory_once_per_item (w : World) :
  cache_wf w ->
  NoDup (cacheItems w) ->
  exists w',
    updateCacheItemsFactory w = Ok tt w' /\
    cacheItems w' = cacheItems w /\
    cache_wf w' /\
    space_factories w' = S (space_factories w) /\
    m_cacheItemsFactory w' = Some (mkFactory (m_viewApplicationMask w) (space_factories w)) /\
    (forall a it, a ∈ cacheItems w -> heap w !! a = Some it ->
       heap w' !! a =
         Some (mkCacheItem (item_id it) (item_rect it) None (space_factories w)
                           (S (item_schema_version it)))) /\
    (forall a, a ∉ cacheItems w -> heap w' !! a = heap w !! a).
Proof.
  intros Hwf Hnd. exists (rebuilt w).
  split; [by apply updateCacheItemsFactory_spec |].
  repeat split.
  - unfold cache_wf, live in *. cbn [heap cacheItems rebuilt set_heap
      set_m_cacheItemsFactory set_space_factories].
    eapply Forall_impl; [exact Hwf |]. intros a.
    rewrite !lookup_lt_is_Some. by rewrite reschema_heap_length.
  - intros a it Hin Hit. cbn [heap rebuilt set_heap].
    rewrite reschema_heap_once by done. by rewrite Hit.
  - intros a Hin. by apply reschema_heap_other.
Qed.

(** [clear] empties the cache, marks it invalid and emits
    [cacheChanged(CacheContent)] once; it emits again every time it is
    called, also on a cache that is already empty and invalid, where nothing
    else changes. *)
Theorem clear_emits_every_time (w : World) :
  guard_free w ->
  exists w1,
    clear w = Ok tt w1 /\
    cacheItems w1 = [] /\
    m_itemsCacheInvalid w1 = true /\
    trace w1 = trace w ++ [EvCacheChanged ChangeReasonCacheContent] /\
    clear w1 = Ok tt (set_trace (trace w1 ++ [EvCacheChanged ChangeReasonCacheContent]) w1).
Proof.
  intros Hg. eexists. split; [by apply clear_free |].
  repeat split. rewrite clear_free by exact Hg. by destruct w.
Qed.

Lemma keeps_Q_ASSERT {Y} (f : World -> Y) (c : bool) (text : string) :
  keeps f (Q_ASSERT c text).
Proof. intros w. unfold Q_ASSERT. by destruct c, qt_debug. Qed.

Lemma keeps_CacheItem_update {Y} (f : World -> Y) (a : nat) (g : CacheItem -> CacheItem) :
  (forall h w, f (set_heap h w) = f w) -> keeps f (CacheItem_update a g).
Proof.
  intros Hf w. unfold CacheItem_update, bind, CacheItem_load, modify.
  destruct (heap w !! a); cbn; [apply Hf | done].
Qed.

Lemma updateCacheItemsFactory_keeps {Y} (f : World -> Y) :
  (forall h w, f (set_heap h w) = f w) ->
  (forall x w, f (set_m_cacheItemsFactory x w) = f w) ->
  (forall n w, f (set_space_factories n w) = f w) ->
  keeps f updateCacheItemsFactory.
Proof.
  intros Hh Hf Hn. unfold updateCacheItemsFactory.
  apply keeps_bind; [done | intros mask].
  apply keeps_bind; [intros w; apply Hn | intros fa].
  apply keeps_bind; [intros w; apply Hf | intros _].
  apply keeps_bind; [apply keeps_Q_ASSERT | intros _].
  apply keeps_bind; [| done].
  unfold forEachCacheItem. apply keeps_bind; [apply keeps_Q_ASSERT | intros _].
  intros w. unfold forEachCacheItemImpl. cbn [get_world HasWorld_World].
  apply keeps_forEach. intros a. unfold updateCacheItemsFactory_visitor.
  apply keeps_bind; [by apply keeps_CacheItem_update | intros _].
  apply keeps_bind; [done | intros [fa' |]]; [| done].
  apply keeps_bind; [by apply keeps_CacheItem_update | done].
Qed.

(** A change event never touches what the host has set: however
    [onSpaceChanged] ends, for every reason and every sender, the space, the
    mask, the window, the scroll offset, both pending deltas, the guard and
    the draw proxy are as before; and unless the reason has the
    SpaceStructure bit, the cache keeps its items and its validity flag. *)
Theorem onSpaceChanged_keeps_host_settings (space : nat) (R : Z) (w : World) :
  host_settings (state_of (onSpaceChanged space R w)) = host_settings w /\
  (has_bits R ChangeReasonSpaceStructure = false ->
   cacheItems (state_of (onSpaceChanged space R w)) = cacheItems w /\
   m_itemsCacheInvalid (state_of (onSpaceChanged space R w)) = m_itemsCacheInvalid w).
Proof.
  assert (Hgen : forall {Y} (f : World -> Y),
             (forall h w, f (set_heap h w) = f w) ->
             (forall x w, f (set_m_cacheItemsFactory x w) = f w) ->
             (forall n w, f (set_space_factories n w) = f w) ->
             (forall t w, f (set_trace t w) = f w) ->
             (has_bits R ChangeReasonSpaceStructure = true ->
              (forall l w, f (set_cacheItems l w) = f w) /\
              (forall b w, f (set_m_itemsCacheInvalid b w) = f w)) ->
             keeps f (onSpaceChanged space R)).
  { intros Y f Hh Hf Hn Ht Hc. unfold onSpaceChanged.
    apply keeps_bind; [done | intros sp].
    apply keeps_bind; [apply keeps_Q_ASSERT | intros _].
    destruct (has_bits R ChangeReasonSpaceStructure).
    - destruct (Hc eq_refl) as [Hl Hb]. unfold clear, clearItemsCache, invalidateItemsCache.
      repeat (apply keeps_bind; [| intros ?]);
        try apply keeps_Q_ASSERT; try done; intros w'; cbn; auto.
    - destruct (has_bits R _).
      + apply keeps_bind; [by apply updateCacheItemsFactory_keeps | intros _].
        intros w'. apply Ht.
      + destruct (has_bits R _); [intros w'; apply Ht | done]. }
  split.
  - apply Hgen; try done.
  - intros HR. split; apply Hgen; try done; rewrite HR; discriminate.
Qed.

End Rebuild.

(** ** Traversal of a cache without views *)

Section Viewless.
Context {qt : QtPlatform} (visitor : IterateInfo -> M World bool).

Lemma viewless_loop (items : list nat) :
  forall (info : IterateInfo) (w : World),
    Forall (fun a => exists it, heap w !! a = Some it /\ item_cacheView it = None) items ->
    drop_local (forEach items (forEachCacheView_item visitor) (info, w)) = Ok true w.
Proof.
  induction items as [| a items IH]; intros info w Hall; [reflexivity |].
  apply Forall_cons in Hall as [(it & Hit & Hnone) Hall].
  cbn [forEach]. unfold bind. rewrite (item_step visitor a it) by exact Hit.
  rewrite Hnone. cbn [ret fst snd]. by apply IH.
Qed.

(** Items without a view are skipped: on a cache whose items have no view
    built (as after the factory was rebuilt and before the next draw),
    [forEachCacheView] returns true without a single call of the visitor and
    leaves the world as it is. *)
Theorem forEachCacheView_skips_viewless_items (w : World) :
  viewless w -> forEachCacheView visitor w = Ok true w.
Proof.
  intros Hv. unfold forEachCacheView, bind at 1. rewrite Q_ASSERT_holds.
  unfold with_local, forEachCacheItem, bind at 1. rewrite Q_ASSERT_holds.
  unfold forEachCacheItemImpl. cbn [get_world HasWorld_local snd].
  by apply viewless_loop.
Qed.

End Viewless.

(** ** Creating cache items *)

Section Create.
Context {qt : QtPlatform} {ext : Collaborators} {dispatch : Dispatch}.

(** [createCacheItem] puts the item the factory made into a new shared
    object: the pointer it returns is new and leads to that item, every
    older pointer leads where it led, and the cache itself is not changed,
    so the new item is not yet part of it. *)
Theorem createCacheItem_allocates (id : nat) (f : CacheItemFactory) (it : CacheItem)
    (w w1 : World) :
  m_cacheItemsFactory w = Some f ->
  CacheItemFactory_create f id w = Ok it w1 ->
  cache_wf w1 ->
  exists a w',
    createCacheItem id w = Ok a w' /\
    heap w' !! a = Some it /\
    heap w1 !! a = None /\
    (forall b, is_Some (heap w1 !! b) -> heap w' !! b = heap w1 !! b) /\
    cacheItems w' = cacheItems w1 /\
    (a ∉ cacheItems w') /\
    cache_wf w'.
Proof.
  intros Hf Hc Hwf. exists (length (heap w1)), (set_heap (heap w1 ++ [it]) w1).
  split.
  { unfold createCacheItem, bind at 1, gets. rewrite Hf. unfold bind. by rewrite Hc. }
  cbn [heap cacheItems set_heap].
  assert (Hfresh : length (heap w1) ∉ cacheItems w1).
  { intros Hin. unfold cache_wf in Hwf. rewrite Forall_forall in Hwf.
    apply Hwf, lookup_lt_is_Some in Hin. lia. }
  repeat split.
  - rewrite lookup_app_r by lia. by rewrite Nat.sub_diag.
  - by apply lookup_ge_None.
  - intros b Hb. apply lookup_lt_is_Some in Hb. by rewrite lookup_app_l.
  - exact Hfresh.
  - unfold cache_wf, live in *. cbn [heap cacheItems set_heap].
    eapply Forall_impl; [exact Hwf |]. intros b.
    rewrite !lookup_lt_is_Some, length_app. lia.
Qed.

End Create.

(** ** The properties above at work on the demo cache *)

Lemma demo_world_in_use_free : @guard_free qt5_release demo_world_in_use.
Proof. left. reflexivity. Qed.

Lemma setWindow_spec_witness :
  @setWindow qt5_debug canonical_bits (QRect_ltwh 10 10 50 40) demo_world =
    Ok tt
      (set_trace [EvCacheChanged 16]
        (set_m_itemsCacheInvalid true
          (set_m_window (mkQRect 10 10 59 49)
            (set_m_sizeDelta (mkQSize (-50) (-20))
              (set_m_scrollDelta (mkQPoint 10 10) demo_world))))).
Proof.
  apply (proj2 (@setWindow_spec qt5_debug canonical_bits demo_world (QRect_ltwh 10 10 50 40))).
  - discriminate.
  - right. reflexivity.
Defined.

Lemma setWindow_repeated_witness :
  exists w1,
    @setWindow qt5_debug canonical_bits flipped_window
       (set_m_window (QRect_ltwh 0 0 10 10) demo_world) = Ok tt w1 /\
    m_window w1 = mkQRect 0 0 99 59 /\
    @setWindow qt5_debug canonical_bits flipped_window w1 =
      Ok tt (set_trace (trace w1 ++ [EvCacheChanged 16]) w1).
Proof.
  destruct (@setWindow_repeated qt5_debug canonical_bits
              (set_m_window (QRect_ltwh 0 0 10 10) demo_world) flipped_window)
    as (w1 & H1 & H2 & _ & H3).
  - discriminate.
  - right. reflexivity.
  - exists w1. split; [exact H1 |]. split; [exact H2 |].
    apply H3. discriminate.
Defined.

Lemma sizeDelta_is_size_change_witness :
  m_sizeDelta (state_of (@run_setters qt5_debug canonical_bits demo_calls demo_world)) =
    QSize_add (m_sizeDelta demo_world)
      (QSize_sub
         (QRect_size
            (m_window (state_of (@run_setters qt5_debug canonical_bits demo_calls demo_world))))
         (QRect_size (m_window demo_world))).
Proof.
  apply (proj2 (@sizeDelta_is_size_change qt5_debug canonical_bits demo_calls demo_world)).
  int_range.
Defined.

Lemma scrollDelta_cancels_when_origin_returns_witness :
  m_scrollDelta
    (state_of (@run_setters qt5_debug canonical_bits
                 [CallSetScrollOffset (mkQPoint 0 25); CallSetScrollOffset (mkQPoint 0 0)]
                 demo_world)) = mkQPoint 0 0.
Proof.
  apply (@scrollDelta_cancels_when_origin_returns qt5_debug canonical_bits
           [CallSetScrollOffset (mkQPoint 0 25); CallSetScrollOffset (mkQPoint 0 0)]
           demo_world).
  - int_range.
  - reflexivity.
Defined.

Lemma setters_store_before_assertion_witness :
  @setScrollOffset qt5_debug canonical_bits (mkQPoint 0 25) demo_world_in_use =
    Fatal (AssertFailed "!m_cacheIsInUse")
      (set_m_scrollOffset (mkQPoint 0 25)
        (set_m_scrollDelta (mkQPoint 0 (-25)) demo_world_in_use)).
Proof.
  apply (proj1 (@setters_store_before_assertion qt5_debug canonical_bits demo_world_in_use
                  eq_refl eq_refl)).
  discriminate.
Defined.



Lemma hit_test_miss_witness :
  (exists w',
     @tryActivateControllers recording_items missing_dispatch
       (mkControllerContext (mkQPoint 500 500) 0) [7; 8] demo_world = Ok [7; 8] w') /\
  (exists w',
     @tooltipByPoint recording_items missing_dispatch (mkQPoint 500 500) 3
       demo_world = Ok (false, 3) w').
Proof.
  apply (@hit_test_miss recording_items missing_dispatch
           (mkControllerContext (mkQPoint 500 500) 0) [7; 8] 3 demo_world).
  - intros w. reflexivity.
  - intros s. eexists. reflexivity.
Defined.

Lemma updateCacheItemsFactory_once_per_item_witness :
  exists w',
    @updateCacheItemsFactory qt5_debug demo_world = Ok tt w' /\
    heap w' !! 2 =
      Some (mkCacheItem 12 (QRect_ltwh 0 40 100 20) None 1 1).
Proof.
  destruct (@updateCacheItemsFactory_once_per_item qt5_debug demo_world demo_world_wf)
    as (w' & H1 & _ & _ & _ & _ & H2 & _).
  - repeat constructor; rewrite ?not_elem_of_cons; repeat split;
      try discriminate; apply not_elem_of_nil.
  - exists w'. split; [exact H1 |].
    apply (H2 2 (mkCacheItem 12 (QRect_ltwh 0 40 100 20)
                   (Some (ViewNode 1 [ViewNode 2 []; ViewNode 3 []])) 0 0)).
    + apply list_elem_of_In. cbn. auto.
    + reflexivity.
Defined.

(** A pointer stored twice is re-schemaed twice. *)
Lemma updateCacheItemsFactory_twice_for_duplicate :
  exists w',
    @updateCacheItemsFactory qt5_debug demo_world_dup = Ok tt w' /\
    item_schema_version <$> heap w' !! 0 = Some 2 /\
    item_schema_version <$> heap w' !! 1 = Some 1.
Proof. eexists. split; [vm_compute; reflexivity |]. split; reflexivity. Qed.

Lemma clear_emits_every_time_witness :
  exists w1,
    @clear qt5_debug canonical_bits demo_world = Ok tt w1 /\
    @clear qt5_debug canonical_bits w1 =
      Ok tt (set_trace (trace w1 ++ [EvCacheChanged 16]) w1).
Proof.
  destruct (@clear_emits_every_time qt5_debug canonical_bits demo_world)
    as (w1 & H1 & _ & _ & _ & H2).
  - right. reflexivity.
  - exists w1. split; assumption.
Defined.

Lemma onSpaceChanged_keeps_host_settings_witness :
  cacheItems (state_of (@onSpaceChanged qt5_debug canonical_bits 1 6 demo_world)) =
    [0; 1; 2] /\
  m_itemsCacheInvalid (state_of (@onSpaceChanged qt5_debug canonical_bits 1 6 demo_world)) =
    false.
Proof.
  apply (proj2 (@onSpaceChanged_keeps_host_settings qt5_debug canonical_bits 1 6 demo_world)).
  reflexivity.
Defined.

Lemma rebuilt_demo_world_viewless : viewless (rebuilt demo_world).
Proof. unfold viewless. repeat constructor; eexists; split; reflexivity. Qed.

Lemma forEachCacheView_skips_viewless_items_witness :
  @forEachCacheView qt5_debug (fun _ => throw 9) (rebuilt demo_world) =
    Ok true (rebuilt demo_world).
Proof.
  apply (@forEachCacheView_skips_viewless_items qt5_debug (fun _ => throw 9)
           (rebuilt demo_world) rebuilt_demo_world_viewless).
Defined.

Lemma createCacheItem_allocates_witness :
  exists a w',
    @createCacheItem missing_dispatch 13 demo_world = Ok a w' /\
    heap w' !! a = Some (mkCacheItem 13 (QRect_ltwh 0 0 0 0) None 0 0) /\
    a ∉ cacheItems w'.
Proof.
  destruct (@createCacheItem_allocates missing_dispatch 13 (mkFactory 1 0)
              (mkCacheItem 13 (QRect_ltwh 0 0 0 0) None 0 0) demo_world demo_world
              eq_refl eq_refl demo_world_wf)
    as (a & w' & H1 & H2 & _ & _ & _ & H3 & _).
  exists a, w'. repeat split; assumption.
Defined.
